(** * License validation engine of the uckmedia backend

    A shallow embedding of [signatureService.js], [validationService.js]
    and [validateController.js]: the request-signing primitives, the nonce
    guard, the rate limiter and the ordered validation pipeline, together
    with the HTTP status mapping of the validation endpoint.

    JavaScript strings are modelled as Rocq [string]s, i.e. sequences of
    code units in the range 0..255; [Buffer.from] and [crypto] encode them
    in UTF-8 as Node does. *)

From Stdlib Require Import ZArith List String Ascii Bool Lia.
From Stdlib Require Import Permutation Sorted.
Import ListNotations.
Open Scope Z_scope.

(* ================================================================= *)
(** ** Node's [crypto]: SHA-256, HMAC-SHA256 and hex digests          *)
(* ================================================================= *)

Module Sha256.

Definition mask32 : Z := Z.ones 32.
Definition add32 (a b : Z) : Z := Z.land (a + b) mask32.
Definition rotr (x : Z) (n : Z) : Z :=
  Z.land (Z.lor (Z.shiftr x n) (Z.shiftl x (32 - n))) mask32.
Definition lnot32 (x : Z) : Z := Z.lxor x mask32.

Definition Ch (x y z : Z) : Z := Z.lxor (Z.land x y) (Z.land (lnot32 x) z).
Definition Maj (x y z : Z) : Z :=
  Z.lxor (Z.lxor (Z.land x y) (Z.land x z)) (Z.land y z).
Definition Sigma0 (x : Z) : Z := Z.lxor (Z.lxor (rotr x 2) (rotr x 13)) (rotr x 22).
Definition Sigma1 (x : Z) : Z := Z.lxor (Z.lxor (rotr x 6) (rotr x 11)) (rotr x 25).
Definition sigma0 (x : Z) : Z := Z.lxor (Z.lxor (rotr x 7) (rotr x 18)) (Z.shiftr x 3).
Definition sigma1 (x : Z) : Z := Z.lxor (Z.lxor (rotr x 17) (rotr x 19)) (Z.shiftr x 10).

(** Round constants and initial hash value of FIPS 180-4, in decimal. *)
Definition K : list Z :=
  [ 1116352408; 1899447441; 3049323471; 3921009573; 961987163; 1508970993; 2453635748; 2870763221;
    3624381080; 310598401; 607225278; 1426881987; 1925078388; 2162078206; 2614888103; 3248222580;
    3835390401; 4022224774; 264347078; 604807628; 770255983; 1249150122; 1555081692; 1996064986;
    2554220882; 2821834349; 2952996808; 3210313671; 3336571891; 3584528711; 113926993; 338241895;
    666307205; 773529912; 1294757372; 1396182291; 1695183700; 1986661051; 2177026350; 2456956037;
    2730485921; 2820302411; 3259730800; 3345764771; 3516065817; 3600352804; 4094571909; 275423344;
    430227734; 506948616; 659060556; 883997877; 958139571; 1322822218; 1537002063; 1747873779;
    1955562222; 2024104815; 2227730452; 2361852424; 2428436474; 2756734187; 3204031479; 3329325298 ].

Definition H0 : list Z :=
  [ 1779033703; 3144134277; 1013904242; 2773480762; 1359893119; 2600822924; 528734635; 1541459225 ].

(** Big-endian conversions between bytes and 32-bit words. *)
Fixpoint words_of_bytes (bs : list Z) : list Z :=
  match bs with
  | b0 :: b1 :: b2 :: b3 :: rest =>
      (Z.lor (Z.shiftl b0 24) (Z.lor (Z.shiftl b1 16) (Z.lor (Z.shiftl b2 8) b3)))
        :: words_of_bytes rest
  | _ => []
  end.

Definition bytes_of_word (w : Z) : list Z :=
  [Z.land (Z.shiftr w 24) 255; Z.land (Z.shiftr w 16) 255;
   Z.land (Z.shiftr w 8) 255; Z.land w 255].

Definition bytes_of_words (ws : list Z) : list Z := flat_map bytes_of_word ws.

(** Message schedule: W_0..W_15 from the block, then
    W_t = sigma1 W_(t-2) + W_(t-7) + sigma0 W_(t-15) + W_(t-16). *)
Fixpoint schedule (n : nat) (w : list Z) : list Z :=
  match n with
  | O => w
  | S n' =>
      let t := List.length w in
      let get i := nth (t - i)%nat w 0 in
      schedule n' (w ++ [add32 (add32 (sigma1 (get 2%nat)) (get 7%nat))
                               (add32 (sigma0 (get 15%nat)) (get 16%nat))])
  end.

Definition round (st : list Z) (kw : Z * Z) : list Z :=
  match st with
  | [a; b; c; d; e; f; g; h] =>
      let t1 := add32 (add32 (add32 h (Sigma1 e)) (add32 (Ch e f g) (fst kw))) (snd kw) in
      let t2 := add32 (Sigma0 a) (Maj a b c) in
      [add32 t1 t2; a; b; c; add32 d t1; e; f; g]
  | _ => st
  end.

Definition compress (hs : list Z) (block : list Z) : list Z :=
  let w := schedule 48 (words_of_bytes block) in
  let st := fold_left round (combine K w) hs in
  map (fun p => add32 (fst p) (snd p)) (combine hs st).

Fixpoint blocks (fuel : nat) (bs : list Z) : list (list Z) :=
  match fuel with
  | O => []
  | S f => match bs with
           | [] => []
           | _ => firstn 64 bs :: blocks f (skipn 64 bs)
           end
  end.

Definition pad (bs : list Z) : list Z :=
  let l := Z.of_nat (List.length bs) in
  let zeros := Z.to_nat ((55 - l) mod 64) in
  bs ++ [0x80] ++ repeat 0 zeros
     ++ map (fun i => Z.land (Z.shiftr (8 * l) (8 * (7 - i))) 255) [0;1;2;3;4;5;6;7].

Definition hash (bs : list Z) : list Z :=
  let p := pad bs in
  bytes_of_words (fold_left compress (blocks (List.length p) p) H0).

(** HMAC (RFC 2104) over SHA-256, block size 64 bytes. *)
Definition hmac (key msg : list Z) : list Z :=
  let k := if (64 <? Z.of_nat (List.length key))%Z then hash key else key in
  let k := k ++ repeat 0 (64 - List.length k) in
  let ipad := map (fun b => Z.lxor b 0x36) k in
  let opad := map (fun b => Z.lxor b 0x5c) k in
  hash (opad ++ hash (ipad ++ msg)).

End Sha256.

(** UTF-8 encoding of a code unit in 0..255, as [Buffer.from] and
    [crypto] apply it to JavaScript strings. *)
Definition utf8_of_code (c : Z) : list Z :=
  if c <? 128 then [c]
  else [Z.lor 0xC0 (Z.shiftr c 6); Z.lor 0x80 (Z.land c 63)].

Definition code (a : ascii) : Z := Z.of_N (N_of_ascii a).

Fixpoint utf8 (s : string) : list Z :=
  match s with
  | EmptyString => []
  | String a s' => utf8_of_code (code a) ++ utf8 s'
  end.

Definition hex_digit (n : Z) : ascii :=
  if n <? 10 then ascii_of_N (Z.to_N (48 + n)) else ascii_of_N (Z.to_N (87 + n)).

Fixpoint hex (bs : list Z) : string :=
  match bs with
  | [] => EmptyString
  | b :: bs' => String (hex_digit (Z.shiftr b 4)) (String (hex_digit (Z.land b 15)) (hex bs'))
  end.

(** [crypto.createHmac('sha256', secret).update(payload).digest('hex')] *)
Definition hmac_sha256_hex (secret payload : string) : string :=
  hex (Sha256.hmac (utf8 secret) (utf8 payload)).

(* ================================================================= *)
(** ** JavaScript values and objects                                  *)
(* ================================================================= *)

(** The scalar values a request body or a field set carries; numbers
    are the integers the code handles (unix timestamps, counters). *)
Inductive jsval :=
| JUndefined
| JNull
| JBool (b : bool)
| JNum (n : Z)
| JStr (s : string).

(** Exceptions the code can raise. *)
Inductive js_error := TypeError | RangeError.

(** A computation that returns a value or raises. *)
Inductive throws (A : Type) :=
| Ret (a : A)
| Raise (e : js_error).
Arguments Ret {A} a.
Arguments Raise {A} e.

(** [!!v]: [undefined], [null], [false], [0] and [""] are falsy. *)
Definition truthy (v : jsval) : bool :=
  match v with
  | JUndefined | JNull => false
  | JBool b => b
  | JNum n => negb (n =? 0)
  | JStr s => negb (String.eqb s EmptyString)
  end.

(** Decimal rendering of an integer, as [String(n)]. *)
Fixpoint digits_of_pos (fuel : nat) (n : Z) (acc : string) : string :=
  match fuel with
  | O => acc
  | S f =>
      let acc' := String (ascii_of_N (Z.to_N (48 + n mod 10))) acc in
      if n <? 10 then acc' else digits_of_pos f (n / 10) acc'
  end.

Definition string_of_Z (n : Z) : string :=
  if n <? 0 then String "-" (digits_of_pos 64 (- n) EmptyString)
  else digits_of_pos 64 n EmptyString.

(** Template-literal conversion [`${v}`]. *)
Definition js_to_string (v : jsval) : string :=
  match v with
  | JUndefined => "undefined"
  | JNull => "null"
  | JBool true => "true"
  | JBool false => "false"
  | JNum n => string_of_Z n
  | JStr s => s
  end.

(** Numeric conversion used by [now - timestamp]; [None] is [NaN].
    Strings are read as an optional [-] followed by decimal digits (the
    empty string is [0]); the other numeric notations JavaScript accepts
    (blanks, [+], fractions, exponents, hexadecimal) are not modelled and
    give [NaN]. *)
Fixpoint decimal_value (s : string) (acc : Z) : option Z :=
  match s with
  | EmptyString => Some acc
  | String c s' =>
      let d := code c - 48 in
      if (0 <=? d) && (d <=? 9) then decimal_value s' (10 * acc + d) else None
  end.

Definition js_to_number (v : jsval) : option Z :=
  match v with
  | JUndefined => None
  | JNull => Some 0
  | JBool b => Some (if b then 1 else 0)
  | JNum n => Some n
  | JStr EmptyString => Some 0
  | JStr (String "-" (String _ _ as s)) => option_map Z.opp (decimal_value s 0)
  | JStr s => decimal_value s 0
  end.

(** A plain object: its own properties in insertion order.  Property
    names of an object are distinct ([obj_wf]). *)
Definition obj := list (string * jsval).

Definition obj_wf (o : obj) : Prop := NoDup (map fst o).

(** [o[k]]: [undefined] when [k] is not an own property. *)
Fixpoint obj_get (o : obj) (k : string) : jsval :=
  match o with
  | [] => JUndefined
  | (k', v) :: o' => if String.eqb k k' then v else obj_get o' k
  end.

(** [o[k] = v]: overwrite in place, or append a new property. *)
Definition obj_set (o : obj) (k : string) (v : jsval) : obj :=
  if existsb (fun p => String.eqb k (fst p)) o
  then map (fun p => if String.eqb k (fst p) then (k, v) else p) o
  else o ++ [(k, v)].

(** [delete o[k]]. *)
Definition obj_delete (o : obj) (k : string) : obj :=
  filter (fun p => negb (String.eqb k (fst p))) o.

(** [Object.keys(o)]; the code sorts the result at once, so the
    enumeration order is immaterial. *)
Definition object_keys (o : obj) : list string := map fst o.

(** [Array.prototype.sort] without comparator on distinct strings:
    ascending order of UTF-16 code units ([String.compare]).  On
    distinct elements every stable sort yields this list. *)
Definition js_str_lt (a b : string) : bool := String.ltb a b.

Fixpoint insert_sorted (x : string) (l : list string) : list string :=
  match l with
  | [] => [x]
  | y :: l' => if js_str_lt x y then x :: y :: l' else y :: insert_sorted x l'
  end.

Definition js_sort (l : list string) : list string := fold_right insert_sorted [] l.

(** [parts.join(sep)] *)
Fixpoint js_join (sep : string) (parts : list string) : string :=
  match parts with
  | [] => EmptyString
  | [p] => p
  | p :: ps => (p ++ sep ++ js_join sep ps)%string
  end.

Definition js_startsWith (s pre : string) : bool := String.prefix pre s.

(** [s.endsWith(suf)] *)
Definition js_endsWith (s suf : string) : bool :=
  (String.length suf <=? String.length s)%nat &&
  String.eqb (substring (String.length s - String.length suf) (String.length suf) s) suf.

(** [s.substring(n)] *)
Definition js_substring_from (s : string) (n : nat) : string :=
  substring n (String.length s - n) s.

(** [String.prototype.toLowerCase] on code units 0..255. *)
Definition lower_char (c : ascii) : ascii :=
  let n := code c in
  if ((65 <=? n) && (n <=? 90)) || ((192 <=? n) && (n <=? 222) && negb (n =? 215))
  then ascii_of_N (Z.to_N (n + 32)) else c.

Fixpoint js_toLowerCase (s : string) : string :=
  match s with
  | EmptyString => EmptyString
  | String c s' => String (lower_char c) (js_toLowerCase s')
  end.

(* ================================================================= *)
(** ** signatureService.js                                            *)
(* ================================================================= *)

Module SignatureService.

(** [createPayload(data)]: sort [Object.keys(data)], skip [undefined]
    and [null] values, push [`${key}=${data[key]}`], join with [&]. *)
Definition push_part (data : obj) (parts : list string) (key : string) : list string :=
  match obj_get data key with
  | JUndefined | JNull => parts
  | v => parts ++ [(key ++ "=" ++ js_to_string v)%string]
  end.

Definition createPayload (data : obj) : string :=
  let sortedKeys := js_sort (object_keys data) in
  let parts := fold_left (push_part data) sortedKeys [] in
  js_join "&" parts.

(** [sign(data, secret)]: HMAC-SHA256 of the payload, hex encoded. *)
Definition sign (data : obj) (secret : string) : string :=
  hmac_sha256_hex secret (createPayload data).

(** [Buffer.from(v)]: strings are UTF-8 encoded; the other scalars
    are refused with a [TypeError]. *)
Definition buffer_from (v : jsval) : throws (list Z) :=
  match v with
  | JStr s => Ret (utf8 s)
  | _ => Raise TypeError
  end.

(** [crypto.timingSafeEqual(a, b)]: [RangeError] when the byte lengths
    differ, otherwise byte-wise equality. *)
Definition timingSafeEqual (a b : list Z) : throws bool :=
  if Nat.eqb (List.length a) (List.length b)
  then Ret (forallb (fun p => fst p =? snd p) (combine a b))
  else Raise RangeError.

(** [verify(data, signature, secret)] *)
Definition verify (data : obj) (signature : jsval) (secret : string) : throws bool :=
  let expectedSignature := sign data secret in
  match buffer_from signature with
  | Raise e => Raise e
  | Ret sig => timingSafeEqual sig (utf8 expectedSignature)
  end.

(** [isTimestampValid(timestamp, toleranceSeconds)] with
    [now = Math.floor(Date.now() / 1000)]. *)
Definition isTimestampValid (now : Z) (timestamp : jsval) (toleranceSeconds : Z) : bool :=
  match js_to_number timestamp with
  | None => false
  | Some t => Z.abs (now - t) <=? toleranceSeconds
  end.

(** [.replace(/^https?:\/\//, '')] *)
Definition strip_scheme (s : string) : string :=
  match s with
  | String "h" (String "t" (String "t" (String "p" rest))) =>
      match rest with
      | String "s" (String ":" (String "/" (String "/" r))) => r
      | String ":" (String "/" (String "/" r)) => r
      | _ => s
      end
  | _ => s
  end.

(** [.replace(/^www\./, '')] *)
Definition strip_www (s : string) : string :=
  match s with
  | String "w" (String "w" (String "w" (String "." r))) => r
  | _ => s
  end.

(** [.replace(/\/$/, '')] *)
Fixpoint strip_trailing_slash (s : string) : string :=
  match s with
  | EmptyString => EmptyString
  | String c s' =>
      if (c =? "/")%char && String.eqb s' EmptyString then EmptyString
      else String c (strip_trailing_slash s')
  end.

(** [normalizeDomain(domain)] on a string. *)
Definition normalize (domain : string) : string :=
  strip_trailing_slash (strip_www (strip_scheme (js_toLowerCase domain))).

(** [normalizeDomain(domain)]: [domain.toLowerCase] exists on strings
    only. *)
Definition normalizeDomain (domain : jsval) : throws string :=
  match domain with
  | JStr s => Ret (normalize s)
  | _ => Raise TypeError
  end.

(** [new RegExp('^' + pattern + '$').test(ip)] for a pattern built by
    escaping dots and turning [*] into [.*]: [*] matches any run of
    characters other than line terminators, every other character of
    the allow-list entry (digits, dots) matches itself. *)
Definition line_terminator (c : ascii) : bool :=
  (c =? "010")%char || (c =? "013")%char.

Fixpoint wildcard_match (p s : string) : bool :=
  match p with
  | EmptyString => String.eqb s EmptyString
  | String "*" p' =>
      (fix star (s : string) : bool :=
         wildcard_match p' s ||
         match s with
         | EmptyString => false
         | String c s' => negb (line_terminator c) && star s'
         end) s
  | String c p' =>
      match s with
      | String c' s' => (c =? c')%char && wildcard_match p' s'
      | EmptyString => false
      end
  end.

Definition contains_star (s : string) : bool :=
  existsb (fun c => (c =? "*")%char) (list_ascii_of_string s).

(** [isIpAllowed(ip, allowedIps)]: fails open.  An entry without [*]
    is compared with [===].  An entry with [*] is read here as literal
    characters plus wildcards; that reading is exact for the entries of
    [ip_list_plain] below (digits, letters, [.], [:] and [*]).  Any
    other regular-expression character in such an entry stays live in
    the code's pattern, or makes [new RegExp] throw, and this model
    does not cover it. *)
Definition isIpAllowed (ip : string) (allowedIps : option (list string)) : bool :=
  match allowedIps with
  | None | Some [] => true
  | Some ips =>
      existsb (fun allowedIp =>
                 if contains_star allowedIp then wildcard_match allowedIp ip
                 else String.eqb allowedIp ip) ips
  end.

(** [isDomainAllowed(domain, allowedDomains)]: fails closed. *)
Definition isDomainAllowed (domain : jsval) (allowedDomains : option (list string))
  : throws bool :=
  match allowedDomains with
  | None | Some [] => Ret false
  | Some ds =>
      match normalizeDomain domain with
      | Raise e => Raise e
      | Ret normalizedDomain =>
          Ret (existsb (fun allowedDomain =>
                 let normalizedAllowed := normalize allowedDomain in
                 if js_startsWith normalizedAllowed "*." then
                   let baseDomain := js_substring_from normalizedAllowed 2 in
                   js_endsWith normalizedDomain baseDomain
                 else String.eqb normalizedDomain normalizedAllowed) ds)
      end
  end.

(** [a === b] on scalars. *)
Definition js_strict_eq (a b : jsval) : bool :=
  match a, b with
  | JUndefined, JUndefined | JNull, JNull => true
  | JBool x, JBool y => Bool.eqb x y
  | JNum x, JNum y => x =? y
  | JStr x, JStr y => String.eqb x y
  | _, _ => false
  end.

(** [generateNonce()]: [crypto.randomBytes(32).toString('hex')], for
    the bytes [crypto.randomBytes] draws. *)
Definition generateNonce (randomBytes : list Z) : string := hex randomBytes.

(** The object [createChallenge] returns. *)
Record Challenge := mkChallenge {
  ch_nonce : string; ch_timestamp : Z; ch_signature : string; ch_expires_at : Z }.

(** [createChallenge(apiKey, productSecret)] at
    [now = Math.floor(Date.now() / 1000)], with the bytes drawn by
    [generateNonce]. *)
Definition createChallenge (now : Z) (randomBytes : list Z) (apiKey : jsval)
  (productSecret : string) : Challenge :=
  let nonce := generateNonce randomBytes in
  let timestamp := now in
  let challengeData : obj :=
    [("api_key", apiKey); ("nonce", JStr nonce); ("timestamp", JNum timestamp)]%string in
  let signature := sign challengeData productSecret in
  mkChallenge nonce timestamp signature (timestamp + 60).

(** [verifyChallengeResponse(response, expectedNonce, productSecret)]
    at [now = Math.floor(Date.now() / 1000)]. *)
Definition verifyChallengeResponse (now : Z) (response : obj) (expectedNonce : jsval)
  (productSecret : string) : throws bool :=
  let api_key := obj_get response "api_key"%string in
  let nonce := obj_get response "nonce"%string in
  let timestamp := obj_get response "timestamp"%string in
  let signature := obj_get response "signature"%string in
  if negb (js_strict_eq nonce expectedNonce) then Ret false
  else if negb (isTimestampValid now timestamp 60) then Ret false
  else
    let data : obj := [("api_key", api_key); ("nonce", nonce); ("timestamp", timestamp)]%string in
    verify data signature productSecret.


(** [hashIp(ip)]: the first 16 hex digits of SHA-256 of the address. *)
Definition hashIp (ip : string) : string :=
  substring 0 16 (hex (Sha256.hash (utf8 ip))).

(** [generateRateLimitKey(apiKeyId, date)]: [`ratelimit:${apiKeyId}:${date}`]. *)
Definition generateRateLimitKey (apiKeyId date : string) : string :=
  ("ratelimit:" ++ apiKeyId ++ ":" ++ date)%string.

End SignatureService.

(* ================================================================= *)
(** ** The Supabase tables the validation service reads and writes    *)
(* ================================================================= *)

Record Product := mkProduct {
  product_id_ : string; product_name : string; product_version : string;
  product_status : string }.

Record User := mkUser { user_id : string; user_email : string; user_status : string }.

(** [end_date] in milliseconds since the epoch; [None] is [null]. *)
Record Order := mkOrder { payment_status : string; end_date : option Z }.

(** A row of [api_keys] with the joined [product], [user] and [order]
    of the [select] in [validateLicense]; a missing join is [null]. *)
Record ApiKeyRow := mkApiKey {
  ak_id : Z;
  ak_api_key : string;
  ak_api_secret : string;
  ak_status : string;
  ak_product_id : string;
  ak_product : option Product;
  ak_user : option User;
  ak_order : option Order;
  ak_allowed_domains : option (list string);
  ak_allowed_ips : option (list string);
  ak_max_requests_per_day : Z;
  ak_last_request_at : option Z }.

(** A row of [nonce_store]; [expires_at] in milliseconds. *)
Record NonceRow := mkNonce {
  n_id : Z; n_nonce : string; n_api_key_id : Z; n_used : bool; n_expires_at : Z }.

(** A row of [rate_limit_tracking]. *)
Record RateRow := mkRate { r_api_key_id : Z; r_date : string; r_request_count : Z }.

(** The [logData] object of [validateLicense], as [LogService.log]
    stores it in [validation_logs]. *)
Record LogData := mkLogData {
  ld_domain : jsval;
  ld_ip_address : string;
  ld_result : string;
  ld_request_data : obj;
  ld_api_key_id : option Z;
  ld_product_id : option string;
  ld_error_code : option string;
  ld_error_message : option string }.

(** The backend as one value.  [db_fault], when set, is the error code
    the backend answers every [select] with (an outage); [insert],
    [update] and [rpc] results are not inspected by the code. *)
Record Db := mkDb {
  api_keys : list ApiKeyRow;
  nonce_store : list NonceRow;
  rate_limit_tracking : list RateRow;
  validation_logs : list LogData;
  db_fault : option string }.

(** The clock: [Date.now()] in milliseconds and the UTC date string
    [new Date().toISOString().split('T')[0]]. *)
Record Env := mkEnv { now_ms : Z; today : string }.

Definition now_seconds (env : Env) : Z := now_ms env / 1000.

(** [.single()]: exactly one row, otherwise error [PGRST116]. *)
Inductive Single (A : Type) :=
| SData (a : A)
| SError (code : string).
Arguments SData {A} a.
Arguments SError {A} code.

Definition single {A} (db : Db) (rows : list A) : Single A :=
  match db_fault db with
  | Some c => SError c
  | None => match rows with
            | [r] => SData r
            | _ => SError "PGRST116"
            end
  end.

(* ================================================================= *)
(** ** State and exception monad                                      *)
(* ================================================================= *)

Definition M (A : Type) : Type := Db -> Db * throws A.

Definition ret {A} (a : A) : M A := fun db => (db, Ret a).
Definition raise {A} (e : js_error) : M A := fun db => (db, Raise e).
Definition bind {A B} (m : M A) (k : A -> M B) : M B :=
  fun db => match m db with
            | (db', Ret a) => k a db'
            | (db', Raise e) => (db', Raise e)
            end.
Definition get_db : M Db := fun db => (db, Ret db).
Definition modify_db (f : Db -> Db) : M unit := fun db => (f db, Ret tt).
Definition lift_throws {A} (t : throws A) : M A :=
  match t with Ret a => ret a | Raise e => raise e end.
(** [try { m } catch { h }] *)
Definition try_catch {A} (m : M A) (h : js_error -> M A) : M A :=
  fun db => match m db with
            | (db', Raise e) => h e db'
            | r => r
            end.

Notation "x <- m ;; k" := (bind m (fun x => k))
  (at level 61, m at next level, right associativity).
Notation "m ;;; k" := (bind m (fun _ => k))
  (at level 61, right associativity).

(** Table updates. *)
Definition set_api_keys (l : list ApiKeyRow) (db : Db) : Db :=
  mkDb l (nonce_store db) (rate_limit_tracking db) (validation_logs db) (db_fault db).
Definition set_nonce_store (l : list NonceRow) (db : Db) : Db :=
  mkDb (api_keys db) l (rate_limit_tracking db) (validation_logs db) (db_fault db).
Definition set_rate_limit_tracking (l : list RateRow) (db : Db) : Db :=
  mkDb (api_keys db) (nonce_store db) l (validation_logs db) (db_fault db).
Definition set_validation_logs (l : list LogData) (db : Db) : Db :=
  mkDb (api_keys db) (nonce_store db) (rate_limit_tracking db) l (db_fault db).

(** [LogService.log(logData, ...)]: one insert into [validation_logs];
    failures are swallowed. *)
Definition log (ld : LogData) : M unit :=
  modify_db (fun db => set_validation_logs (validation_logs db ++ [ld]) db).

(* ================================================================= *)
(** ** validationService.js                                           *)
(* ================================================================= *)

Module ValidationService.

(** The object [validateLicense] returns. *)
Inductive Response :=
| RSuccess (product : Product) (license_status : string) (expires_at : option Z)
| RFailure (code : string) (message : string).

(** Its [success] field. *)
Definition success (r : Response) : bool :=
  match r with RSuccess _ _ _ => true | RFailure _ _ => false end.

Definition error_code (r : Response) : option string :=
  match r with RSuccess _ _ _ => None | RFailure c _ => Some c end.

(** [createErrorResponse(errorCode, errorMessage, logData, startTime)] *)
Definition createErrorResponse (errorCode errorMessage : string) (logData : LogData)
  : M Response :=
  log (mkLogData (ld_domain logData) (ld_ip_address logData) "failed"
         (ld_request_data logData) (ld_api_key_id logData) (ld_product_id logData)
         (Some errorCode) (Some errorMessage)) ;;;
  ret (RFailure errorCode errorMessage).

(** The object [checkRateLimit] returns. *)
Record RateCheck := mkRateCheck {
  allowed : bool; current : option Z; limit : option Z }.

(** [checkRateLimit(apiKeyId, maxRequests)] *)
Definition checkRateLimit (env : Env) (apiKeyId maxRequests : Z) : M RateCheck :=
  db <- get_db ;;
  let rows := filter (fun r => (r_api_key_id r =? apiKeyId) && String.eqb (r_date r) (today env))
                     (rate_limit_tracking db) in
  match single db rows with
  | SError c =>
      if negb (String.eqb c "PGRST116") then ret (mkRateCheck true None None)
      else let currentCount := 0 in
           ret (mkRateCheck (currentCount <? maxRequests) (Some currentCount) (Some maxRequests))
  | SData data =>
      let currentCount := r_request_count data in
      ret (mkRateCheck (currentCount <? maxRequests) (Some currentCount) (Some maxRequests))
  end.

(** Modelled from the spec: the database function [increment_rate_limit]
    called by [incrementRateLimit] ("atomically increment the day's
    counter, creating it if absent"). *)
Definition incrementRateLimit (env : Env) (apiKeyId : Z) : M unit :=
  modify_db (fun db =>
    let rows := rate_limit_tracking db in
    let hit r := (r_api_key_id r =? apiKeyId) && String.eqb (r_date r) (today env) in
    set_rate_limit_tracking
      (if existsb hit rows
       then map (fun r => if hit r then mkRate (r_api_key_id r) (r_date r) (r_request_count r + 1)
                          else r) rows
       else rows ++ [mkRate apiKeyId (today env) 1]) db).

(** The object [checkAndMarkNonce] returns. *)
Record NonceCheck := mkNonceCheck { valid : bool; message : option string }.

(** [checkAndMarkNonce] is a [select] followed, when the nonce passes,
    by a separate [update]; the two halves are named so that the
    interleaving model below runs exactly these steps. *)
Definition nonce_select (db : Db) (nonce : jsval) (apiKeyId : Z) : Single NonceRow :=
  single db (filter (fun r => String.eqb (n_nonce r) (js_to_string nonce)
                              && (n_api_key_id r =? apiKeyId)) (nonce_store db)).

(** The decision on the selected row, and the id to mark as used. *)
Definition nonce_decide (env : Env) (s : Single NonceRow) : NonceCheck * option Z :=
  match s with
  | SError _ => (mkNonceCheck false (Some "Nonce not found"%string), None)
  | SData data =>
      if n_used data then (mkNonceCheck false (Some "Nonce already used (replay attack)"%string), None)
      else if n_expires_at data <? now_ms env then (mkNonceCheck false (Some "Nonce expired"%string), None)
      else (mkNonceCheck true None, Some (n_id data))
  end.

(** [.from('nonce_store').update({ used: true }).eq('id', id)] *)
Definition mark_used (id : Z) (db : Db) : Db :=
  set_nonce_store
    (map (fun r => if n_id r =? id
                   then mkNonce (n_id r) (n_nonce r) (n_api_key_id r) true (n_expires_at r)
                   else r) (nonce_store db)) db.

(** [checkAndMarkNonce(nonce, apiKeyId)] *)
Definition checkAndMarkNonce (env : Env) (nonce : jsval) (apiKeyId : Z) : M NonceCheck :=
  db <- get_db ;;
  let (res, mark) := nonce_decide env (nonce_select db nonce apiKeyId) in
  match mark with
  | Some id => modify_db (mark_used id) ;;; ret res
  | None => ret res
  end.

(** [.from('api_keys').update({ status: 'expired' }).eq('id', id)] *)
Definition expire_key (id : Z) (db : Db) : Db :=
  set_api_keys
    (map (fun k => if ak_id k =? id
                   then mkApiKey (ak_id k) (ak_api_key k) (ak_api_secret k) "expired"
                          (ak_product_id k) (ak_product k) (ak_user k) (ak_order k)
                          (ak_allowed_domains k) (ak_allowed_ips k)
                          (ak_max_requests_per_day k) (ak_last_request_at k)
                   else k) (api_keys db)) db.

(** [.from('api_keys').update({ last_request_at: ... }).eq('id', id)] *)
Definition touch_key (now : Z) (id : Z) (db : Db) : Db :=
  set_api_keys
    (map (fun k => if ak_id k =? id
                   then mkApiKey (ak_id k) (ak_api_key k) (ak_api_secret k) (ak_status k)
                          (ak_product_id k) (ak_product k) (ak_user k) (ak_order k)
                          (ak_allowed_domains k) (ak_allowed_ips k)
                          (ak_max_requests_per_day k) (Some now)
                   else k) (api_keys db)) db.

Definition requiredFields : list string :=
  ["product_id"; "domain"; "api_key"; "timestamp"; "nonce"; "signature"]%string.

(** [a !== b] for a string [a]. *)
Definition str_strict_neq (a : string) (b : jsval) : bool :=
  match b with JStr s => negb (String.eqb a s) | _ => true end.

Local Open Scope string_scope.
Local Open Scope Z_scope.

(** Steps 4 to 14 of [validateLicense], inside its [try] block, for the
    resolved key [apiKeyData]. *)
Definition checksAfterKey (env : Env) (requestData : obj) (clientIp : string)
  (apiKeyData : ApiKeyRow) (logData : LogData) : M Response :=
  let fail code msg := createErrorResponse code msg logData in
  (* 4. API key status *)
  if negb (String.eqb (ak_status apiKeyData) "active") then
    fail "API_KEY_INACTIVE" ("API key status: " ++ ak_status apiKeyData)%string
  else
  (* 5. product *)
  match ak_product apiKeyData with
  | None => fail "PRODUCT_INACTIVE" "Product is not active"
  | Some product =>
  if negb (String.eqb (product_status product) "active") then
    fail "PRODUCT_INACTIVE" "Product is not active"
  else
  (* 6. product id *)
  if str_strict_neq (ak_product_id apiKeyData) (obj_get requestData "product_id") then
    fail "PRODUCT_MISMATCH" "API key does not belong to this product"
  else
  (* 7. user: [apiKeyData.user.status] on a [null] user raises *)
  match ak_user apiKeyData with
  | None => raise TypeError
  | Some user =>
  if negb (String.eqb (user_status user) "active") then
    fail "USER_SUSPENDED" "User account is not active"
  else
  let afterSubscription : M Response :=
    (* 9. domain *)
    domainOk <- lift_throws (SignatureService.isDomainAllowed
                               (obj_get requestData "domain") (ak_allowed_domains apiKeyData)) ;;
    if negb domainOk then
      fail "DOMAIN_NOT_ALLOWED"
           ("Domain " ++ js_to_string (obj_get requestData "domain") ++ " is not authorized")%string
    else
    (* 10. IP *)
    if negb (SignatureService.isIpAllowed clientIp (ak_allowed_ips apiKeyData)) then
      fail "IP_NOT_ALLOWED" ("IP " ++ clientIp ++ " is not authorized")%string
    else
    (* 11. rate limit *)
    rateLimitCheck <- checkRateLimit env (ak_id apiKeyData) (ak_max_requests_per_day apiKeyData) ;;
    if negb (allowed rateLimitCheck) then
      fail "RATE_LIMIT_EXCEEDED"
           ("Daily limit of " ++ string_of_Z (ak_max_requests_per_day apiKeyData)
              ++ " requests exceeded")%string
    else
    (* 12. nonce *)
    nonceCheck <- checkAndMarkNonce env (obj_get requestData "nonce") (ak_id apiKeyData) ;;
    if negb (valid nonceCheck) then
      fail "INVALID_NONCE" (match message nonceCheck with Some m => m | None => "undefined" end)
    else
    (* 13. signature *)
    let signatureData : obj :=
      [("product_id", obj_get requestData "product_id");
       ("domain", obj_get requestData "domain");
       ("api_key", obj_get requestData "api_key");
       ("timestamp", obj_get requestData "timestamp");
       ("nonce", obj_get requestData "nonce")]%string in
    isSignatureValid <- lift_throws (SignatureService.verify signatureData
                                       (obj_get requestData "signature")
                                       (ak_api_secret apiKeyData)) ;;
    if negb isSignatureValid then
      fail "INVALID_SIGNATURE" "Request signature verification failed"
    else
    (* 14. success *)
    modify_db (touch_key (now_ms env) (ak_id apiKeyData)) ;;;
    incrementRateLimit env (ak_id apiKeyData) ;;;
    log (mkLogData (ld_domain logData) (ld_ip_address logData) "success"
           (ld_request_data logData) (ld_api_key_id logData) (ld_product_id logData)
           (ld_error_code logData) (ld_error_message logData)) ;;;
    ret (RSuccess product (ak_status apiKeyData)
           match ak_order apiKeyData with Some o => end_date o | None => None end)
  in
  (* 8. subscription *)
  match ak_order apiKeyData with
  | None => afterSubscription
  | Some order =>
      if negb (String.eqb (payment_status order) "paid") then
        fail "PAYMENT_REQUIRED" "Payment not completed"
      else
      match end_date order with
      | Some d =>
          if d <? now_ms env then
            modify_db (expire_key (ak_id apiKeyData)) ;;;
            fail "SUBSCRIPTION_EXPIRED" "Subscription has expired"
          else afterSubscription
      | None => afterSubscription
      end
  end
  end
  end.

(** [validateLicense(requestData, clientIp)].  Steps 1 to 3 raise
    nothing, so the [catch] block logs [logData] with the key's ids set
    at lines 74-75 of the source. *)
Definition validateLicense (env : Env) (requestData : obj) (clientIp : string) : M Response :=
  let logData := mkLogData (obj_get requestData "domain") clientIp "failed" requestData
                           None None None None in
  (* 1. required fields *)
  let missing := filter (fun field => negb (truthy (obj_get requestData field))) requiredFields in
  if (0 <? List.length missing)%nat then
    createErrorResponse "MISSING_FIELDS"
      ("Missing required fields: " ++ js_join ", " missing)%string logData
  else
  (* 2. timestamp, 15 seconds *)
  if negb (SignatureService.isTimestampValid (now_seconds env)
             (obj_get requestData "timestamp") 15) then
    createErrorResponse "INVALID_TIMESTAMP" "Request timestamp is too old or in the future" logData
  else
  (* 3. API key lookup *)
  db <- get_db ;;
  match single db (filter (fun k => String.eqb (ak_api_key k)
                                      (js_to_string (obj_get requestData "api_key")))
                          (api_keys db)) with
  | SError _ => createErrorResponse "INVALID_API_KEY" "API key not found" logData
  | SData apiKeyData =>
      let logData := mkLogData (ld_domain logData) clientIp "failed" requestData
                       (Some (ak_id apiKeyData)) (Some (ak_product_id apiKeyData)) None None in
      try_catch (checksAfterKey env requestData clientIp apiKeyData logData)
        (fun _ => createErrorResponse "INTERNAL_ERROR" "An error occurred during validation" logData)
  end.

End ValidationService.

(* ================================================================= *)
(** ** validateController.js                                          *)
(* ================================================================= *)

Module ValidateController.
Import ValidationService.

(** [validateRequest(req, res)]: the HTTP status and the JSON body. *)
Definition validateRequest (env : Env) (body : obj) (clientIp : string) : M (Z * Response) :=
  try_catch
    (result <- validateLicense env body clientIp ;;
     let statusCode := if success result then 200 else 403 in
     ret (statusCode, result))
    (fun _ => ret (500, RFailure "INTERNAL_ERROR" "Server error occurred")).

End ValidateController.

(* ================================================================= *)
(** ** Concurrent runs of the nonce check                             *)
(* ================================================================= *)

(** Two pipeline runs on the same store, each performing the nonce
    check of [checkAndMarkNonce] as the code does: one [select], then,
    in a later step, the decision and the [update].  A schedule says
    which run takes the next step ([true]: the first run). *)
Module NonceRace.
Import ValidationService.

Inductive Thread :=
| TReady
| TSelected (s : Single NonceRow)
| TDone (r : NonceCheck).

Definition step_thread (env : Env) (nonce : jsval) (apiKeyId : Z) (db : Db) (t : Thread)
  : Db * Thread :=
  match t with
  | TReady => (db, TSelected (nonce_select db nonce apiKeyId))
  | TSelected s =>
      let (res, mark) := nonce_decide env s in
      (match mark with Some id => mark_used id db | None => db end, TDone res)
  | TDone r => (db, TDone r)
  end.

Record Config := mkConfig { c_db : Db; c_first : Thread; c_second : Thread }.

Definition step (env : Env) (nonce : jsval) (apiKeyId : Z) (c : Config) (first : bool) : Config :=
  if first then
    let (db', t') := step_thread env nonce apiKeyId (c_db c) (c_first c) in
    mkConfig db' t' (c_second c)
  else
    let (db', t') := step_thread env nonce apiKeyId (c_db c) (c_second c) in
    mkConfig db' (c_first c) t'.

Definition run (env : Env) (nonce : jsval) (apiKeyId : Z) (db : Db) (sched : list bool) : Config :=
  fold_left (step env nonce apiKeyId) sched (mkConfig db TReady TReady).

Definition observed_fresh (t : Thread) : bool :=
  match t with TDone r => valid r | _ => false end.

(** How many of the two runs observed the nonce as fresh. *)
Definition fresh_count (c : Config) : nat :=
  ((if observed_fresh (c_first c) then 1 else 0) + (if observed_fresh (c_second c) then 1 else 0))%nat.

End NonceRace.

(* ================================================================= *)
(** ** The spec's descriptions, where a claim is compared against one  *)
(* ================================================================= *)

(** JavaScript's default string order, as a relation. *)
Definition str_lt (a b : string) : Prop := js_str_lt a b = true.

(** A field whose value is neither [undefined] nor [null]. *)
Definition not_nullish (data : obj) (key : string) : bool :=
  match obj_get data key with JUndefined | JNull => false | _ => true end.

(** The [key=value] part of a field. *)
Definition render_field (data : obj) (key : string) : string :=
  (key ++ "=" ++ js_to_string (obj_get data key))%string.

(** [prefix] removed from the front of [s], when [s] starts with it. *)
Fixpoint strip_prefix (pre s : string) : option string :=
  match pre, s with
  | EmptyString, _ => Some s
  | String c p, String c' s' => if (c =? c')%char then strip_prefix p s' else None
  | String _ _, EmptyString => None
  end.

Definition strip_leading (pre s : string) : string :=
  match strip_prefix pre s with Some r => r | None => s end.

(** [suf] is a suffix of [s]. *)
Fixpoint ends_with (s suf : string) : bool :=
  String.eqb s suf ||
  match s with
  | EmptyString => false
  | String _ s' => ends_with s' suf
  end.

(** The spec's [normalizeDomain]: lower-case, strip a leading [http://]
    or [https://], strip a leading [www.], strip a trailing [/]. *)
Definition spec_normalizeDomain (domain : string) : string :=
  let s := js_toLowerCase domain in
  let s := match strip_prefix "http://" s with
           | Some r => r
           | None => strip_leading "https://" s
           end in
  let s := strip_leading "www." s in
  if ends_with s "/" then substring 0 (String.length s - 1) s else s.

(** The spec's [isDomainAllowed]: an empty or missing pattern list
    allows nothing; a normalized pattern [*.suffix] allows every
    normalized domain ending with [suffix]; any other pattern allows the
    domain equal to it after normalization. *)
Definition spec_isDomainAllowed (domain : string) (patterns : option (list string)) : bool :=
  match patterns with
  | None | Some [] => false
  | Some ps =>
      existsb (fun p =>
                 let np := spec_normalizeDomain p in
                 let nd := spec_normalizeDomain domain in
                 match strip_prefix "*." np with
                 | Some suffix => ends_with nd suffix
                 | None => String.eqb nd np
                 end) ps
  end.

(* ================================================================= *)
(** ** Predicates on strings used by the statements below            *)
(* ================================================================= *)

(** Lower-case hexadecimal text: the characters [0-9] and [a-f]. *)
Definition is_hex_char (c : ascii) : bool :=
  let n := code c in ((48 <=? n) && (n <=? 57)) || ((97 <=? n) && (n <=? 102)).

Definition is_lower_hex (s : string) : bool :=
  forallb is_hex_char (list_ascii_of_string s).

(** The characters of an IP allow-list entry on which the code's
    pattern (dots escaped, [*] turned into [.*]) has no other
    metacharacter: ASCII digits and letters, [.], [:] and [*]. *)
Definition ip_entry_char (c : ascii) : bool :=
  let n := code c in
  ((48 <=? n) && (n <=? 57)) || ((65 <=? n) && (n <=? 90)) || ((97 <=? n) && (n <=? 122)) ||
  (n =? 46) || (n =? 58) || (n =? 42).

Definition ip_entry_plain (s : string) : bool :=
  forallb ip_entry_char (list_ascii_of_string s).

(** An allow-list whose wildcard entries are all plain.  For such a
    list [new RegExp] never throws and [SignatureService.isIpAllowed]
    is the code's answer. *)
Definition ip_list_plain (ips : option (list string)) : bool :=
  match ips with
  | None => true
  | Some l => forallb (fun e => negb (SignatureService.contains_star e) || ip_entry_plain e) l
  end.

(** A string without the character [:]. *)
Definition no_colon (s : string) : bool :=
  negb (existsb (fun c => (c =? ":")%char) (list_ascii_of_string s)).

(** No character of [s] ends a line. *)
Definition no_line_terminator (s : string) : bool :=
  forallb (fun c => negb (SignatureService.line_terminator c)) (list_ascii_of_string s).

(** Concrete stores and requests used to exercise the definitions. *)
Module Fixtures.
Import ValidationService.
Local Open Scope string_scope.

Definition env0 : Env := mkEnv 1700000000000 "2023-11-14".
Definition product0 : Product := mkProduct "p1" "Prod" "1.0" "active".
Definition user0 : User := mkUser "u1" "a@b.c" "active".
Definition key0 : ApiKeyRow :=
  mkApiKey 1 "lk_test" "s3cret" "active" "p1" (Some product0) (Some user0) None
           (Some ["example.com"]) None 100 None.
Definition nonce0 : string := "0123456789abcdef0123456789abcdef".
Definition nonce_row0 : NonceRow := mkNonce 7 nonce0 1 false 1700000060000.
Definition db0 : Db := mkDb [key0] [nonce_row0] [] [] None.

(** The signed fields of a well-formed request, and the request. *)
Definition fields0 : obj :=
  [("product_id", JStr "p1"); ("domain", JStr "example.com"); ("api_key", JStr "lk_test");
   ("timestamp", JNum 1700000000); ("nonce", JStr nonce0)].
Definition signature0 : string := SignatureService.sign fields0 "s3cret".
Definition req0 : obj := app fields0 [("signature", JStr signature0)].

(** The same request with one hex digit appended to its signature. *)
Definition req_long_signature : obj := obj_set req0 "signature" (JStr (signature0 ++ "0")).

(** The same request with [timestamp: 0]. *)
Definition req_zero_timestamp : obj := obj_set req0 "timestamp" (JNum 0).

(** The key of [key0] joined to a paid order that ended one
    millisecond before [env0]'s clock, and the store holding it. *)
Definition order_ended : Order := mkOrder "paid" (Some 1699999999999).
Definition key_ended : ApiKeyRow :=
  mkApiKey 1 "lk_test" "s3cret" "active" "p1" (Some product0) (Some user0) (Some order_ended)
           (Some ["example.com"]) None 100 None.
Definition db_ended : Db := mkDb [key_ended] [nonce_row0] [] [] None.

End Fixtures.

(* ================================================================= *)
(** * Properties                                                      *)
(* ================================================================= *)

(** ** The digest primitive agrees with the standard test vectors *)

Example sha256_abc :
  hex (Sha256.hash (utf8 "abc")) =
  "ba7816bf8f01cfea414140de5dae2223b00361a396177a9cb410ff61f20015ad"%string.
Proof. vm_compute. reflexivity. Qed.

Example hmac_fox :
  hmac_sha256_hex "key" "The quick brown fox jumps over the lazy dog" =
  "f7bc83f430538424b13298e6aa6fb143ef4d59a14946175997479dbc2d1a3cd8"%string.
Proof. vm_compute. reflexivity. Qed.

Example hmac_long_key :
  hmac_sha256_hex
    "kkkkkkkkkkkkkkkkkkkkkkkkkkkkkkkkkkkkkkkkkkkkkkkkkkkkkkkkkkkkkkkkkkkkkk"
    "xxxxxxxxxxxxxxxxxxxxxxxxxxxxxxxxxxxxxxxxxxxxxxxxxxxxxxxxxxxxxxxxxxxxxxxxxxxxxxxxxxxxxxxxxxxxxxxxxxxx" =
  "b286b32fc69cdcec2178e8c5fe8f235c3abb4593c23c9f4f8dffb94aa3bd3ece"%string.
Proof. vm_compute. reflexivity. Qed.

(** ** A hex digest is 64 ASCII characters *)

Definition is_byte (b : Z) : Prop := 0 <= b <= 255.

Lemma land_255_byte (x : Z) : is_byte (Z.land x 255).
Proof.
  unfold is_byte.
  assert (E : Z.land x 255 = x mod 256) by (apply (Z.land_ones x 8); lia).
  rewrite E. pose proof (Z.mod_pos_bound x 256 ltac:(lia)). lia.
Qed.

Lemma bytes_of_words_bytes (ws : list Z) : Forall is_byte (Sha256.bytes_of_words ws).
Proof.
  induction ws as [|w ws IH]; simpl; [constructor|].
  repeat constructor; try apply land_255_byte. exact IH.
Qed.

Lemma bytes_of_words_length (ws : list Z) :
  List.length (Sha256.bytes_of_words ws) = (4 * List.length ws)%nat.
Proof.
  induction ws as [|w ws IH]; simpl; [reflexivity|].
  rewrite IH. lia.
Qed.

Lemma round_length (st : list Z) (kw : Z * Z) :
  List.length (Sha256.round st kw) = List.length st.
Proof.
  unfold Sha256.round.
  destruct st as [|a [|b [|c [|d [|e [|f [|g [|h [|i st]]]]]]]]]; reflexivity.
Qed.

Lemma fold_round_length (kws : list (Z * Z)) (st : list Z) :
  List.length (fold_left Sha256.round kws st) = List.length st.
Proof.
  revert st; induction kws as [|kw kws IH]; intros st; simpl; [reflexivity|].
  rewrite IH. apply round_length.
Qed.

Lemma compress_length (hs block : list Z) :
  List.length (Sha256.compress hs block) = List.length hs.
Proof.
  unfold Sha256.compress.
  rewrite length_map, length_combine, fold_round_length. apply Nat.min_id.
Qed.

Lemma fold_compress_length (bl : list (list Z)) (hs : list Z) :
  List.length (fold_left Sha256.compress bl hs) = List.length hs.
Proof.
  revert hs; induction bl as [|b bl IH]; intros hs; simpl; [reflexivity|].
  rewrite IH. apply compress_length.
Qed.

Lemma hash_length (bs : list Z) : List.length (Sha256.hash bs) = 32%nat.
Proof.
  unfold Sha256.hash. rewrite bytes_of_words_length, fold_compress_length. reflexivity.
Qed.

Lemma hash_bytes (bs : list Z) : Forall is_byte (Sha256.hash bs).
Proof. apply bytes_of_words_bytes. Qed.

Lemma hex_digit_ascii (n : Z) : 0 <= n <= 15 -> code (hex_digit n) < 128.
Proof.
  intros Hn.
  assert (In n (map Z.of_nat (seq 0 16))) as Hin.
  { apply in_map_iff. exists (Z.to_nat n). split; [apply Z2Nat.id; lia|].
    apply in_seq. lia. }
  simpl in Hin. repeat (destruct Hin as [<- | Hin]; [reflexivity|]). contradiction.
Qed.

Lemma utf8_ascii_char (a : ascii) (s : string) :
  code a < 128 -> utf8 (String a s) = code a :: utf8 s.
Proof.
  intros H. simpl. unfold utf8_of_code. rewrite (proj2 (Z.ltb_lt _ _) H). reflexivity.
Qed.

Lemma utf8_hex_length (bs : list Z) :
  Forall is_byte bs -> List.length (utf8 (hex bs)) = (2 * List.length bs)%nat.
Proof.
  induction bs as [|b bs IH]; intros Hb; simpl; [reflexivity|].
  inversion Hb as [|? ? Hbyte Hrest]; subst. unfold is_byte in Hbyte.
  assert (Hhi : 0 <= Z.shiftr b 4 <= 15).
  { rewrite Z.shiftr_div_pow2 by lia. change (2 ^ 4) with 16.
    split; [apply Z.div_pos; lia|].
    assert (b / 16 < 16) by (apply Z.div_lt_upper_bound; lia). lia. }
  assert (Hlo : 0 <= Z.land b 15 <= 15).
  { assert (E : Z.land b 15 = b mod 16) by (apply (Z.land_ones b 4); lia).
    rewrite E. pose proof (Z.mod_pos_bound b 16 ltac:(lia)). lia. }
  unfold utf8_of_code.
  rewrite (proj2 (Z.ltb_lt _ _) (hex_digit_ascii _ Hhi)).
  rewrite (proj2 (Z.ltb_lt _ _) (hex_digit_ascii _ Hlo)).
  simpl. rewrite IH by exact Hrest. lia.
Qed.

(** Every signature [sign] produces is 64 bytes long once encoded. *)
Lemma sign_utf8_length (data : obj) (secret : string) :
  List.length (utf8 (SignatureService.sign data secret)) = 64%nat.
Proof.
  unfold SignatureService.sign, hmac_sha256_hex, Sha256.hmac.
  rewrite utf8_hex_length by apply hash_bytes. rewrite hash_length. reflexivity.
Qed.

Lemma forallb_combine_self (l : list Z) :
  forallb (fun p => fst p =? snd p) (combine l l) = true.
Proof.
  induction l as [|x l IH]; simpl; [reflexivity|]. rewrite Z.eqb_refl. exact IH.
Qed.

(** ** Signing and verifying *)

(** C2: for every field mapping and every secret, [verify] accepts the
    signature [sign] computes for them:
    [verify(fields, sign(fields, secret), secret) === true]. *)
Theorem verify_sign_roundtrip (fields : obj) (secret : string) :
  SignatureService.verify fields (JStr (SignatureService.sign fields secret)) secret = Ret true.
Proof.
  unfold SignatureService.verify, SignatureService.buffer_from,
         SignatureService.timingSafeEqual.
  rewrite Nat.eqb_refl, forallb_combine_self. reflexivity.
Qed.

(** C3 (as the code behaves): whenever the supplied signature's UTF-8
    encoding is not 64 bytes long, [verify] does not return [false]:
    [crypto.timingSafeEqual] raises a [RangeError]. *)
Theorem verify_length_mismatch_raises (fields : obj) (secret signature : string) :
  List.length (utf8 signature) <> 64%nat ->
  SignatureService.verify fields (JStr signature) secret = Raise RangeError.
Proof.
  intros Hlen.
  unfold SignatureService.verify, SignatureService.buffer_from,
         SignatureService.timingSafeEqual.
  rewrite sign_utf8_length.
  destruct (Nat.eqb_spec (List.length (utf8 signature)) 64); [contradiction | reflexivity].
Qed.

Lemma verify_length_mismatch_raises_witness :
  List.length (utf8 "abc") <> 64%nat /\
  SignatureService.verify [("a", JStr "1")]%string (JStr "abc") "k" = Raise RangeError.
Proof.
  split; [discriminate|].
  apply verify_length_mismatch_raises. discriminate.
Defined.

(** ** Canonical payload *)

Lemma string_compare_lt_trans (a b c : string) :
  (a ?= b)%string = Lt -> (b ?= c)%string = Lt -> (a ?= c)%string = Lt.
Proof.
  revert b c.
  induction a as [|x a IH]; intros [|y b] [|z c]; simpl;
    try discriminate; try reflexivity.
  unfold Ascii.compare.
  destruct (N.compare_spec (N_of_ascii x) (N_of_ascii y));
  destruct (N.compare_spec (N_of_ascii y) (N_of_ascii z));
  destruct (N.compare_spec (N_of_ascii x) (N_of_ascii z));
  intros Hab Hbc; try discriminate; try reflexivity; try (exfalso; lia).
  apply (IH b c); assumption.
Qed.

Lemma str_lt_trans (a b c : string) : str_lt a b -> str_lt b c -> str_lt a c.
Proof.
  unfold str_lt, js_str_lt, String.ltb.
  destruct (a ?= b)%string eqn:E1; try discriminate.
  destruct (b ?= c)%string eqn:E2; try discriminate.
  rewrite (string_compare_lt_trans a b c E1 E2). reflexivity.
Qed.

Lemma str_lt_asym (a b : string) : str_lt a b -> ~ str_lt b a.
Proof.
  unfold str_lt, js_str_lt, String.ltb. rewrite (String.compare_antisym b a).
  destruct (a ?= b)%string; simpl; discriminate.
Qed.

Lemma str_lt_total (a b : string) : a <> b -> str_lt a b \/ str_lt b a.
Proof.
  intros Hne. unfold str_lt, js_str_lt, String.ltb.
  rewrite (String.compare_antisym b a).
  destruct (a ?= b)%string eqn:E; simpl; auto.
  apply String.compare_eq_iff in E. contradiction.
Qed.

Lemma insert_sorted_perm (x : string) (l : list string) :
  Permutation (x :: l) (insert_sorted x l).
Proof.
  induction l as [|y l IH]; simpl; [reflexivity|].
  destruct (js_str_lt x y); [reflexivity|].
  transitivity (y :: x :: l); [apply perm_swap|]. constructor. exact IH.
Qed.

Lemma js_sort_perm (l : list string) : Permutation l (js_sort l).
Proof.
  induction l as [|x l IH]; simpl; [reflexivity|].
  transitivity (x :: js_sort l); [constructor; exact IH | apply insert_sorted_perm].
Qed.

Lemma insert_sorted_strongly (x : string) (l : list string) :
  StronglySorted str_lt l -> ~ In x l -> StronglySorted str_lt (insert_sorted x l).
Proof.
  induction l as [|y l IH]; intros Hs Hin; simpl.
  - repeat constructor.
  - apply StronglySorted_inv in Hs as [Hs Hy].
    destruct (js_str_lt x y) eqn:Hxy.
    + constructor; [constructor; assumption|].
      constructor; [exact Hxy|].
      eapply Forall_impl; [|exact Hy]. intros z Hz. eapply str_lt_trans; eassumption.
    + constructor.
      * apply IH; [exact Hs|]. intros H. apply Hin. right. exact H.
      * assert (Hyx : str_lt y x).
        { destruct (str_lt_total x y) as [H|H]; [intros ->; apply Hin; left; reflexivity| |exact H].
          unfold str_lt in H. rewrite Hxy in H. discriminate. }
        apply (Permutation_Forall (insert_sorted_perm x l)). constructor; assumption.
Qed.

Lemma js_sort_strongly (l : list string) : NoDup l -> StronglySorted str_lt (js_sort l).
Proof.
  induction l as [|x l IH]; intros Hnd; simpl; [constructor|].
  inversion Hnd as [|? ? Hx Hl]; subst.
  apply insert_sorted_strongly; [apply IH; exact Hl|].
  intros H. apply Hx. apply (Permutation_in _ (Permutation_sym (js_sort_perm l))). exact H.
Qed.

Lemma strongly_sorted_perm_eq (l1 l2 : list string) :
  StronglySorted str_lt l1 -> StronglySorted str_lt l2 -> Permutation l1 l2 -> l1 = l2.
Proof.
  revert l2. induction l1 as [|a l1 IH]; intros l2 H1 H2 Hp.
  - symmetry. apply Permutation_nil. exact Hp.
  - destruct l2 as [|b l2].
    + apply Permutation_sym, Permutation_nil in Hp. discriminate.
    + apply StronglySorted_inv in H1 as [H1 Ha].
      apply StronglySorted_inv in H2 as [H2 Hb].
      assert (a = b) as <-.
      { destruct (String.string_dec a b) as [E|E]; [exact E|exfalso].
        assert (Ha' : In b (a :: l1)) by (apply (Permutation_in _ (Permutation_sym Hp)); left; reflexivity).
        assert (Hb' : In a (b :: l2)) by (apply (Permutation_in _ Hp); left; reflexivity).
        destruct Ha' as [Ha'|Ha']; [congruence|].
        destruct Hb' as [Hb'|Hb']; [congruence|].
        rewrite Forall_forall in Ha, Hb.
        exact (str_lt_asym _ _ (Ha _ Ha') (Hb _ Hb')). }
      f_equal. apply IH; [exact H1 | exact H2 |].
      exact (Permutation_cons_inv Hp).
Qed.

Lemma strongly_sorted_filter (f : string -> bool) (l : list string) :
  StronglySorted str_lt l -> StronglySorted str_lt (filter f l).
Proof.
  induction l as [|x l IH]; intros Hs; simpl; [constructor|].
  apply StronglySorted_inv in Hs as [Hs Hx].
  destruct (f x); [|apply IH; exact Hs].
  constructor; [apply IH; exact Hs|].
  rewrite Forall_forall in *. intros y Hy. apply filter_In in Hy as [Hy _]. auto.
Qed.

Lemma perm_filter {A} (f : A -> bool) (l l' : list A) :
  Permutation l l' -> Permutation (filter f l) (filter f l').
Proof.
  induction 1 as [|x l l' _ IH|x y l|l l' l'' _ IH1 _ IH2]; simpl.
  - constructor.
  - destruct (f x); [constructor|]; exact IH.
  - destruct (f x), (f y); try constructor; reflexivity.
  - transitivity (filter f l'); assumption.
Qed.

Lemma push_part_eq (data : obj) (parts : list string) (key : string) :
  SignatureService.push_part data parts key
  = if not_nullish data key then parts ++ [render_field data key] else parts.
Proof.
  unfold SignatureService.push_part, not_nullish, render_field.
  destruct (obj_get data key); reflexivity.
Qed.

Lemma fold_push_part (data : obj) (ks acc : list string) :
  fold_left (SignatureService.push_part data) ks acc
  = acc ++ map (render_field data) (filter (not_nullish data) ks).
Proof.
  revert acc. induction ks as [|k ks IH]; intros acc; simpl.
  - rewrite app_nil_r. reflexivity.
  - rewrite push_part_eq. destruct (not_nullish data k); rewrite IH; [|reflexivity].
    rewrite <- app_assoc. reflexivity.
Qed.

Lemma createPayload_form (data : obj) :
  SignatureService.createPayload data
  = js_join "&" (map (render_field data) (filter (not_nullish data) (js_sort (object_keys data)))).
Proof. unfold SignatureService.createPayload. rewrite fold_push_part. reflexivity. Qed.

Lemma obj_get_in (o : obj) (k : string) (v : jsval) :
  NoDup (map fst o) -> In (k, v) o -> obj_get o k = v.
Proof.
  induction o as [|[k' v'] o IH]; intros Hnd Hin; simpl in *; [contradiction|].
  inversion Hnd as [|? ? Hk' Hnd']; subst.
  destruct Hin as [Heq|Hin].
  - inversion Heq; subst. rewrite String.eqb_refl. reflexivity.
  - destruct (String.eqb_spec k k') as [->|Hne].
    + exfalso. apply Hk'. apply (in_map fst _ _ Hin).
    + apply IH; assumption.
Qed.

Lemma obj_get_notin (o : obj) (k : string) :
  ~ In k (map fst o) -> obj_get o k = JUndefined.
Proof.
  induction o as [|[k' v'] o IH]; intros Hin; simpl in *; [reflexivity|].
  destruct (String.eqb_spec k k') as [->|Hne]; [exfalso; auto|].
  apply IH. auto.
Qed.

Lemma obj_get_perm (o o' : obj) (k : string) :
  obj_wf o -> Permutation o o' -> obj_get o' k = obj_get o k.
Proof.
  intros Hwf Hp.
  assert (Hwf' : NoDup (map fst o')) by exact (Permutation_NoDup (Permutation_map fst Hp) Hwf).
  destruct (in_dec String.string_dec k (map fst o)) as [Hin|Hin].
  - apply in_map_iff in Hin as [[k0 v] [Hk Hin]]. simpl in Hk. subst k0.
    rewrite (obj_get_in o k v Hwf Hin).
    apply obj_get_in; [exact Hwf'|]. exact (Permutation_in _ Hp Hin).
  - rewrite (obj_get_notin o k Hin). apply obj_get_notin.
    intros H. apply Hin. exact (Permutation_in _ (Permutation_map fst (Permutation_sym Hp)) H).
Qed.

(** C4: [createPayload] (the spec's [canonicalize]) drops the fields
    whose value is [undefined] or [null], renders the others as
    [key=value] in strictly ascending order of their raw key names and
    joins them with [&]; hence it yields the same string for every
    insertion order of the same field set. *)
Theorem createPayload_canonical (data : obj) :
  obj_wf data ->
  (exists keys,
      StronglySorted str_lt keys /\
      Permutation keys (filter (not_nullish data) (object_keys data)) /\
      SignatureService.createPayload data = js_join "&" (map (render_field data) keys)) /\
  (forall data', Permutation data data' ->
      SignatureService.createPayload data' = SignatureService.createPayload data).
Proof.
  intros Hwf. split.
  - exists (filter (not_nullish data) (js_sort (object_keys data))). split; [|split].
    + apply strongly_sorted_filter, js_sort_strongly. exact Hwf.
    + apply Permutation_sym, perm_filter, js_sort_perm.
    + apply createPayload_form.
  - intros data' Hp.
    assert (Hwf' : obj_wf data') by exact (Permutation_NoDup (Permutation_map fst Hp) Hwf).
    rewrite !createPayload_form.
    assert (Hkeys : js_sort (object_keys data') = js_sort (object_keys data)).
    { apply strongly_sorted_perm_eq; try (apply js_sort_strongly; assumption).
      transitivity (object_keys data'); [apply Permutation_sym, js_sort_perm|].
      transitivity (object_keys data); [|apply js_sort_perm].
      apply Permutation_map, Permutation_sym. exact Hp. }
    rewrite Hkeys. f_equal.
    assert (Hf : filter (not_nullish data') (js_sort (object_keys data))
                 = filter (not_nullish data) (js_sort (object_keys data))).
    { apply filter_ext. intros k. unfold not_nullish. rewrite (obj_get_perm data data' k Hwf Hp).
      reflexivity. }
    rewrite Hf. apply map_ext. intros k. unfold render_field.
    rewrite (obj_get_perm data data' k Hwf Hp). reflexivity.
Qed.

Lemma createPayload_canonical_witness :
  obj_wf [("timestamp", JNum 1700000000); ("domain", JStr "example.com"); ("nonce", JNull)]%string /\
  ((exists keys,
      StronglySorted str_lt keys /\
      Permutation keys (filter (not_nullish [("timestamp", JNum 1700000000); ("domain", JStr "example.com"); ("nonce", JNull)]%string)
                          (object_keys [("timestamp", JNum 1700000000); ("domain", JStr "example.com"); ("nonce", JNull)]%string)) /\
      SignatureService.createPayload [("timestamp", JNum 1700000000); ("domain", JStr "example.com"); ("nonce", JNull)]%string
      = js_join "&" (map (render_field [("timestamp", JNum 1700000000); ("domain", JStr "example.com"); ("nonce", JNull)]%string) keys)) /\
   (forall data', Permutation [("timestamp", JNum 1700000000); ("domain", JStr "example.com"); ("nonce", JNull)]%string data' ->
      SignatureService.createPayload data'
      = SignatureService.createPayload [("timestamp", JNum 1700000000); ("domain", JStr "example.com"); ("nonce", JNull)]%string)).
Proof.
  assert (Hwf : obj_wf [("timestamp", JNum 1700000000); ("domain", JStr "example.com"); ("nonce", JNull)]%string).
  { unfold obj_wf. simpl. repeat constructor; simpl; intuition discriminate. }
  split; [exact Hwf|]. apply createPayload_canonical. exact Hwf.
Defined.

(** ** Nonce guard *)

Section NonceGuard.
Import ValidationService.

Lemma checkAndMarkNonce_unfold (env : Env) (nonce : jsval) (k : Z) (db : Db) :
  checkAndMarkNonce env nonce k db =
  (match snd (nonce_decide env (nonce_select db nonce k)) with
   | Some id => mark_used id db | None => db end,
   Ret (fst (nonce_decide env (nonce_select db nonce k)))).
Proof.
  unfold checkAndMarkNonce, bind, get_db.
  destruct (nonce_decide env (nonce_select db nonce k)) as [res [id|]]; reflexivity.
Qed.

Definition nonce_key (r : NonceRow) : string * Z := (n_nonce r, n_api_key_id r).

Definition nonce_matches (n : string) (k : Z) (r : NonceRow) : bool :=
  String.eqb (n_nonce r) (js_to_string (JStr n)) && (n_api_key_id r =? k).

Lemma nonce_matches_iff (n : string) (k : Z) (r : NonceRow) :
  nonce_matches n k r = true <-> n_nonce r = n /\ n_api_key_id r = k.
Proof.
  unfold nonce_matches. simpl. rewrite andb_true_iff, String.eqb_eq, Z.eqb_eq. reflexivity.
Qed.

Lemma filter_none {A} (f : A -> bool) (l : list A) :
  (forall x, In x l -> f x = false) -> filter f l = [].
Proof.
  induction l as [|x l IH]; intros H; simpl; [reflexivity|].
  rewrite (H x (or_introl eq_refl)). apply IH. intros y Hy. apply H. right. exact Hy.
Qed.

Lemma filter_unique_match (n : string) (k : Z) (rows : list NonceRow) (r : NonceRow) :
  NoDup (map nonce_key rows) -> In r rows -> n_nonce r = n -> n_api_key_id r = k ->
  filter (nonce_matches n k) rows = [r].
Proof.
  induction rows as [|x rows IH]; intros Hnd Hin Hn Hk; [contradiction|].
  simpl in Hnd. inversion Hnd as [|? ? Hx Hnd']; subst.
  simpl. destruct (nonce_matches (n_nonce r) (n_api_key_id r) x) eqn:Hm.
  - apply nonce_matches_iff in Hm as [Hxn Hxk].
    destruct Hin as [<-|Hin].
    + f_equal. apply filter_none. intros y Hy.
      destruct (nonce_matches (n_nonce x) (n_api_key_id x) y) eqn:Hym; [|reflexivity].
      exfalso. apply nonce_matches_iff in Hym as [Hyn Hyk]. apply Hx.
      unfold nonce_key. rewrite <- Hyn, <- Hyk. apply (in_map nonce_key _ _ Hy).
    + exfalso. apply Hx. unfold nonce_key. rewrite Hxn, Hxk. apply (in_map nonce_key _ _ Hin).
  - destruct Hin as [<-|Hin].
    + exfalso. assert (nonce_matches (n_nonce x) (n_api_key_id x) x = true)
        by (apply nonce_matches_iff; split; reflexivity). congruence.
    + apply IH; auto.
Qed.

Lemma filter_map_comm {A} (f : A -> bool) (g : A -> A) (l : list A) :
  (forall x, f (g x) = f x) -> filter f (map g l) = map g (filter f l).
Proof.
  intros Hg. induction l as [|x l IH]; simpl; [reflexivity|].
  rewrite Hg. destruct (f x); simpl; rewrite IH; reflexivity.
Qed.

Lemma nonce_select_match (db : Db) (n : string) (k : Z) (r : NonceRow) :
  db_fault db = None -> filter (nonce_matches n k) (nonce_store db) = [r] ->
  nonce_select db (JStr n) k = SData r.
Proof.
  intros Hf Hfl. unfold nonce_select, single. rewrite Hf.
  change (filter (fun r0 => String.eqb (n_nonce r0) (js_to_string (JStr n)) && (n_api_key_id r0 =? k))
                 (nonce_store db)) with (filter (nonce_matches n k) (nonce_store db)).
  rewrite Hfl. reflexivity.
Qed.

(** After [mark_used] on the matching row, that row is the only match
    and it is used. *)
Lemma mark_used_filter (db : Db) (n : string) (k : Z) (r : NonceRow) :
  filter (nonce_matches n k) (nonce_store db) = [r] ->
  filter (nonce_matches n k) (nonce_store (mark_used (n_id r) db))
  = [mkNonce (n_id r) (n_nonce r) (n_api_key_id r) true (n_expires_at r)].
Proof.
  intros Hfl. simpl. rewrite filter_map_comm.
  - rewrite Hfl. simpl. rewrite Z.eqb_refl. reflexivity.
  - intros x. destruct (n_id x =? n_id r); reflexivity.
Qed.

End NonceGuard.

(** C5: on a store that holds at most one record per (nonce, key) and
    answers queries, [checkAndMarkNonce(n, k)] returns "Nonce not
    found" when no (n, k) record exists, "Nonce already used (replay
    attack)" when the record is used, "Nonce expired" when it is unused
    but its expiry lies in the past, and otherwise marks the record used
    and returns valid; an immediate second call with the same (n, k)
    then returns "Nonce already used". *)
Theorem checkAndMarkNonce_spec (env : Env) (n : string) (k : Z) (db : Db) :
  db_fault db = None ->
  NoDup (map nonce_key (nonce_store db)) ->
  ((forall r, In r (nonce_store db) -> ~ (n_nonce r = n /\ n_api_key_id r = k)) ->
   ValidationService.checkAndMarkNonce env (JStr n) k db
   = (db, Ret (ValidationService.mkNonceCheck false (Some "Nonce not found"%string)))) /\
  (forall r, In r (nonce_store db) -> n_nonce r = n -> n_api_key_id r = k ->
   (n_used r = true ->
    ValidationService.checkAndMarkNonce env (JStr n) k db
    = (db, Ret (ValidationService.mkNonceCheck false
                  (Some "Nonce already used (replay attack)"%string)))) /\
   (n_used r = false -> n_expires_at r < now_ms env ->
    ValidationService.checkAndMarkNonce env (JStr n) k db
    = (db, Ret (ValidationService.mkNonceCheck false (Some "Nonce expired"%string)))) /\
   (n_used r = false -> now_ms env <= n_expires_at r ->
    ValidationService.checkAndMarkNonce env (JStr n) k db
    = (ValidationService.mark_used (n_id r) db, Ret (ValidationService.mkNonceCheck true None)) /\
    In (mkNonce (n_id r) n k true (n_expires_at r))
       (nonce_store (ValidationService.mark_used (n_id r) db)) /\
    snd (ValidationService.checkAndMarkNonce env (JStr n) k (ValidationService.mark_used (n_id r) db))
    = Ret (ValidationService.mkNonceCheck false
             (Some "Nonce already used (replay attack)"%string)))).
Proof.
  intros Hf Hnd. split.
  - intros Hnone. rewrite checkAndMarkNonce_unfold.
    assert (Hsel : ValidationService.nonce_select db (JStr n) k = SError "PGRST116").
    { unfold ValidationService.nonce_select, single. rewrite Hf.
      change (filter (fun r0 => String.eqb (n_nonce r0) (js_to_string (JStr n)) && (n_api_key_id r0 =? k))
                     (nonce_store db)) with (filter (nonce_matches n k) (nonce_store db)).
      rewrite filter_none; [reflexivity|].
      intros x Hx. destruct (nonce_matches n k x) eqn:Hm; [|reflexivity].
      exfalso. apply (Hnone x Hx). apply nonce_matches_iff. exact Hm. }
    rewrite Hsel. reflexivity.
  - intros r Hin Hn Hk.
    assert (Hfl : filter (nonce_matches n k) (nonce_store db) = [r])
      by (apply filter_unique_match; assumption).
    pose proof (nonce_select_match db n k r Hf Hfl) as Hsel.
    split; [|split].
    + intros Hu. rewrite checkAndMarkNonce_unfold, Hsel. simpl. rewrite Hu. reflexivity.
    + intros Hu Hexp. rewrite checkAndMarkNonce_unfold, Hsel. simpl.
      rewrite Hu, (proj2 (Z.ltb_lt _ _) Hexp). reflexivity.
    + intros Hu Hexp. split; [|split].
      * rewrite checkAndMarkNonce_unfold, Hsel. simpl.
        rewrite Hu, (proj2 (Z.ltb_ge _ _) Hexp). reflexivity.
      * simpl. apply in_map_iff. exists r. split.
        -- rewrite Z.eqb_refl, Hn, Hk. reflexivity.
        -- apply (filter_In (nonce_matches n k)) with (x := r). rewrite Hfl. left. reflexivity.
      * rewrite checkAndMarkNonce_unfold.
        rewrite (nonce_select_match (ValidationService.mark_used (n_id r) db) n k _ Hf
                   (mark_used_filter db n k r Hfl)).
        reflexivity.
Qed.

Lemma checkAndMarkNonce_spec_witness :
  db_fault Fixtures.db0 = None /\
  NoDup (map nonce_key (nonce_store Fixtures.db0)) /\
  ValidationService.checkAndMarkNonce Fixtures.env0 (JStr Fixtures.nonce0) 1 Fixtures.db0
  = (ValidationService.mark_used 7 Fixtures.db0, Ret (ValidationService.mkNonceCheck true None)).
Proof.
  assert (Hnd : NoDup (map nonce_key (nonce_store Fixtures.db0))) by (repeat constructor; simpl; auto).
  split; [reflexivity|]. split; [exact Hnd|].
  apply (proj2 (checkAndMarkNonce_spec Fixtures.env0 Fixtures.nonce0 1 Fixtures.db0 eq_refl Hnd)
               Fixtures.nonce_row0 (or_introl eq_refl) eq_refl eq_refl); vm_compute; congruence.
Defined.

(** ** Concurrent nonce checks *)

Section NonceRaceProps.
Import ValidationService NonceRace.

(** Two steps of one run compute exactly [checkAndMarkNonce]. *)
Lemma run_one_thread (env : Env) (nonce : jsval) (k : Z) (db : Db) :
  exists r, c_first (run env nonce k db [true; true]) = TDone r /\
            checkAndMarkNonce env nonce k db = (c_db (run env nonce k db [true; true]), Ret r).
Proof.
  rewrite checkAndMarkNonce_unfold. unfold run. simpl.
  destruct (nonce_decide env (nonce_select db nonce k)) as [res mark]. simpl.
  exists res. split; reflexivity.
Qed.

Lemma decide_valid (env : Env) (s : Single NonceRow) (res : NonceCheck) (mark : option Z) :
  nonce_decide env s = (res, mark) -> valid res = true ->
  exists r, s = SData r /\ mark = Some (n_id r).
Proof.
  destruct s as [r|c]; simpl.
  - destruct (n_used r); [intros [= <- _]; discriminate|].
    destruct (n_expires_at r <? now_ms env); [intros [= <- _]; discriminate|].
    intros [= _ <-] _. exists r. split; reflexivity.
  - intros [= <- _]. discriminate.
Qed.

Lemma select_data (db : Db) (n : string) (k : Z) (r : NonceRow) :
  nonce_select db (JStr n) k = SData r ->
  db_fault db = None /\ filter (nonce_matches n k) (nonce_store db) = [r].
Proof.
  unfold nonce_select, single.
  change (filter (fun r0 => String.eqb (n_nonce r0) (js_to_string (JStr n)) && (n_api_key_id r0 =? k))
                 (nonce_store db)) with (filter (nonce_matches n k) (nonce_store db)).
  destruct (db_fault db); [discriminate|].
  destruct (filter (nonce_matches n k) (nonce_store db)) as [|r0 [|r1 rest]];
    try discriminate.
  intros [= ->]. split; reflexivity.
Qed.

(** Once a run has passed and marked the record, a later [select]
    sees it used. *)
Lemma second_check_fails (env : Env) (n : string) (k : Z) (db : Db) (res : NonceCheck) (mark : option Z) :
  nonce_decide env (nonce_select db (JStr n) k) = (res, mark) -> valid res = true ->
  valid (fst (nonce_decide env
          (nonce_select (match mark with Some id => mark_used id db | None => db end) (JStr n) k)))
  = false.
Proof.
  intros Hd Hv.
  destruct (decide_valid _ _ _ _ Hd Hv) as [r [Hs ->]].
  destruct (select_data _ _ _ _ Hs) as [Hf Hfl].
  rewrite (nonce_select_match (mark_used (n_id r) db) n k _ Hf (mark_used_filter db n k r Hfl)).
  reflexivity.
Qed.

Lemma fresh_count_sequential (env : Env) (n : string) (k : Z) (db : Db) (first : bool) :
  (fresh_count (run env (JStr n) k db [first; first; negb first; negb first]) <= 1)%nat.
Proof.
  unfold run. destruct first; simpl.
  - destruct (nonce_decide env (nonce_select db (JStr n) k)) as [res1 mark1] eqn:E1. simpl.
    destruct (nonce_decide env (nonce_select (match mark1 with Some id => mark_used id db | None => db end) (JStr n) k))
      as [res2 mark2] eqn:E2.
    unfold fresh_count. simpl.
    destruct (valid res1) eqn:V1; [|destruct (valid res2); lia].
    pose proof (second_check_fails env n k db res1 mark1 E1 V1) as V2.
    rewrite E2 in V2. simpl in V2. rewrite V2. lia.
  - destruct (nonce_decide env (nonce_select db (JStr n) k)) as [res1 mark1] eqn:E1. simpl.
    destruct (nonce_decide env (nonce_select (match mark1 with Some id => mark_used id db | None => db end) (JStr n) k))
      as [res2 mark2] eqn:E2.
    unfold fresh_count. simpl.
    destruct (valid res1) eqn:V1; [|destruct (valid res2); lia].
    pose proof (second_check_fails env n k db res1 mark1 E1 V1) as V2.
    rewrite E2 in V2. simpl in V2. rewrite V2. lia.
Qed.

(** The four schedules of two runs in which both reads come before
    either write. *)
Lemma fresh_count_interleaved (env : Env) (n : string) (k : Z) (db : Db) (r : NonceRow)
  (sched : list bool) :
  db_fault db = None -> filter (nonce_matches n k) (nonce_store db) = [r] ->
  n_used r = false -> now_ms env <= n_expires_at r ->
  In sched [[true; false; true; false]; [true; false; false; true];
            [false; true; true; false]; [false; true; false; true]] ->
  fresh_count (run env (JStr n) k db sched) = 2%nat.
Proof.
  intros Hf Hfl Hu Hexp Hin.
  assert (Hlt : (n_expires_at r <? now_ms env) = false) by (apply Z.ltb_ge; exact Hexp).
  destruct Hin as [<-|[<-|[<-|[<-|[]]]]]; unfold run; simpl;
    rewrite (nonce_select_match db n k r Hf Hfl);
    simpl; rewrite ?Hu, ?Hlt; simpl; rewrite ?Hu, ?Hlt; reflexivity.
Qed.

End NonceRaceProps.

(** At most one of any two concurrent runs on the same (key, nonce)
    observing the nonce as fresh does not hold for every schedule: with
    the record of [Fixtures.db0], the schedule select, select, update,
    update lets both runs pass. *)
Lemma nonce_race_counterexample :
  ~ (forall env n k db sched,
        (NonceRace.fresh_count (NonceRace.run env (JStr n) k db sched) <= 1)%nat).
Proof.
  intros H.
  specialize (H Fixtures.env0 Fixtures.nonce0 1 Fixtures.db0 [true; false; true; false]).
  vm_compute in H. lia.
Qed.

(** C6: [checkAndMarkNonce] is not one atomic conditional write: it
    reads the record in one store call and marks it used in a later,
    unconditional one.  Two runs on the same (key, nonce) that execute
    one after the other let at most one of them observe the nonce as
    fresh; but on an unused, unexpired record, every schedule in which
    both reads happen before either write lets both runs observe it as
    fresh, against the spec's at-most-one guarantee. *)
Theorem nonce_check_not_atomic (env : Env) (n : string) (k : Z) (db : Db) :
  (forall first : bool,
      (NonceRace.fresh_count
         (NonceRace.run env (JStr n) k db [first; first; negb first; negb first]) <= 1)%nat) /\
  (forall (r : NonceRow) (sched : list bool),
      db_fault db = None -> In r (nonce_store db) -> n_nonce r = n -> n_api_key_id r = k ->
      NoDup (map nonce_key (nonce_store db)) ->
      n_used r = false -> now_ms env <= n_expires_at r ->
      In sched [[true; false; true; false]; [true; false; false; true];
                [false; true; true; false]; [false; true; false; true]] ->
      NonceRace.fresh_count (NonceRace.run env (JStr n) k db sched) = 2%nat).
Proof.
  split.
  - intros first. apply fresh_count_sequential.
  - intros r sched Hf Hin Hn Hk Hnd Hu Hexp Hs.
    apply (fresh_count_interleaved env n k db r sched Hf); try assumption.
    apply filter_unique_match; assumption.
Qed.

Lemma nonce_check_not_atomic_witness :
  db_fault Fixtures.db0 = None /\
  NoDup (map nonce_key (nonce_store Fixtures.db0)) /\
  NonceRace.fresh_count
    (NonceRace.run Fixtures.env0 (JStr Fixtures.nonce0) 1 Fixtures.db0 [false; true; true; false])
  = 2%nat.
Proof.
  assert (Hnd : NoDup (map nonce_key (nonce_store Fixtures.db0))) by (repeat constructor; simpl; auto).
  split; [reflexivity|]. split; [exact Hnd|].
  apply (proj2 (nonce_check_not_atomic Fixtures.env0 Fixtures.nonce0 1 Fixtures.db0)
               Fixtures.nonce_row0 [false; true; true; false] eq_refl (or_introl eq_refl)
               eq_refl eq_refl Hnd);
    vm_compute; try congruence; auto 6.
Defined.

(** ** Domain allow-list *)

(** Case analysis on the leading characters of a string, one code unit
    at a time, until both sides compute. *)
Ltac peel_chars :=
  repeat (match goal with s : string |- _ => destruct s as [|?c ?s]; [reflexivity|] end;
          match goal with c : ascii |- _ => destruct c as [[] [] [] [] [] [] [] []]; try reflexivity end).

Lemma strip_scheme_spec (s : string) :
  SignatureService.strip_scheme s =
  match strip_prefix "http://" s with Some r => r | None => strip_leading "https://" s end.
Proof. peel_chars. Qed.

Lemma strip_www_spec (s : string) :
  SignatureService.strip_www s = strip_leading "www." s.
Proof. peel_chars. Qed.

Lemma substring_full (s : string) : substring 0 (String.length s) s = s.
Proof. induction s as [|c s IH]; simpl; [reflexivity|]. rewrite IH. reflexivity. Qed.

Lemma ends_with_length (s suf : string) :
  ends_with s suf = true -> (String.length suf <= String.length s)%nat.
Proof.
  induction s as [|c s IH]; intros H.
  - destruct suf; [simpl; lia|discriminate].
  - change (ends_with (String c s) suf) with (String.eqb (String c s) suf || ends_with s suf) in H.
    apply orb_true_iff in H as [H|H].
    + apply String.eqb_eq in H. subst. simpl. lia.
    + specialize (IH H). simpl. lia.
Qed.

Lemma eqb_length_neq (s t : string) :
  String.length s <> String.length t -> String.eqb s t = false.
Proof.
  intros H. destruct (String.eqb_spec s t) as [->|]; [contradiction|reflexivity].
Qed.

Lemma js_endsWith_spec (s suf : string) : js_endsWith s suf = ends_with s suf.
Proof.
  unfold js_endsWith. induction s as [|c s IH].
  - simpl. destruct suf as [|c' suf]; reflexivity.
  - change (ends_with (String c s) suf) with (String.eqb (String c s) suf || ends_with s suf).
    remember (String.length suf) as m eqn:Hm.
    change (String.length (String c s)) with (S (String.length s)).
    destruct (Nat.lt_trichotomy m (S (String.length s))) as [Hlt|[Heq|Hgt]].
    + rewrite (proj2 (Nat.leb_le _ _) (Nat.lt_le_incl _ _ Hlt)).
      rewrite (eqb_length_neq (String c s) suf) by (simpl; lia).
      replace (S (String.length s) - m)%nat with (S (String.length s - m)) by lia.
      simpl. rewrite <- IH.
      rewrite (proj2 (Nat.leb_le m (String.length s))) by lia. reflexivity.
    + rewrite Heq, Nat.leb_refl, Nat.sub_diag.
      change (substring 0 (S (String.length s)) (String c s))
        with (substring 0 (String.length (String c s)) (String c s)).
      rewrite substring_full. simpl andb.
      destruct (ends_with s suf) eqn:E; [|rewrite orb_false_r; reflexivity].
      apply ends_with_length in E. lia.
    + rewrite (proj2 (Nat.leb_gt _ _) Hgt). simpl andb.
      rewrite (eqb_length_neq (String c s) suf) by (simpl; lia).
      destruct (ends_with s suf) eqn:E; [|reflexivity].
      apply ends_with_length in E. lia.
Qed.

Lemma strip_trailing_slash_spec (s : string) :
  SignatureService.strip_trailing_slash s =
  if ends_with s "/" then substring 0 (String.length s - 1) s else s.
Proof.
  induction s as [|c s IH]; [reflexivity|].
  destruct s as [|c2 s].
  - simpl. destruct (Ascii.eqb_spec c "/") as [->|Hc]; [reflexivity|].
    destruct c as [[] [] [] [] [] [] [] []]; try reflexivity; contradiction.
  - change (SignatureService.strip_trailing_slash (String c (String c2 s)))
      with (if (c =? "/")%char && String.eqb (String c2 s) EmptyString then EmptyString
            else String c (SignatureService.strip_trailing_slash (String c2 s))).
    replace (String.eqb (String c2 s) EmptyString) with false by reflexivity.
    rewrite andb_false_r, IH.
    change (ends_with (String c (String c2 s)) "/")
      with (String.eqb (String c (String c2 s)) "/" || ends_with (String c2 s) "/").
    rewrite (eqb_length_neq (String c (String c2 s)) "/") by (simpl; lia).
    rewrite orb_false_l.
    destruct (ends_with (String c2 s) "/"); [|reflexivity].
    simpl. rewrite Nat.sub_0_r. reflexivity.
Qed.

Lemma normalize_spec (d : string) :
  SignatureService.normalize d = spec_normalizeDomain d.
Proof.
  unfold SignatureService.normalize, spec_normalizeDomain.
  rewrite strip_trailing_slash_spec, strip_www_spec, strip_scheme_spec. reflexivity.
Qed.

Lemma wildcard_branch_spec (nd na : string) :
  (if js_startsWith na "*." then js_endsWith nd (js_substring_from na 2)
   else String.eqb nd na) =
  match strip_prefix "*." na with
  | Some suffix => ends_with nd suffix
  | None => String.eqb nd na
  end.
Proof.
  destruct na as [|c1 na]; [reflexivity|].
  destruct c1 as [[] [] [] [] [] [] [] []]; try reflexivity.
  destruct na as [|c2 na]; [reflexivity|].
  destruct c2 as [[] [] [] [] [] [] [] []]; try reflexivity.
  replace (js_startsWith (String "*" (String "." na)) "*.") with true
    by (destruct na; reflexivity).
  change (strip_prefix "*." (String "*" (String "." na))) with (Some na).
  unfold js_substring_from.
  change (String.length (String "*" (String "." na)) - 2)%nat with (String.length na - 0)%nat.
  rewrite Nat.sub_0_r.
  change (substring 2 (String.length na) (String "*" (String "." na)))
    with (substring 0 (String.length na) na).
  rewrite substring_full. apply js_endsWith_spec.
Qed.

Lemma existsb_pointwise {A} (f g : A -> bool) (l : list A) :
  (forall x, f x = g x) -> existsb f l = existsb g l.
Proof. intros H. induction l as [|x l IH]; simpl; [reflexivity|]. rewrite H, IH. reflexivity. Qed.

(** C7: [isDomainAllowed] fails closed on a missing or empty pattern
    list; otherwise, with both sides normalized (lower-case, leading
    [http://] or [https://] and [www.] removed, one trailing [/]
    removed), a pattern [*.suffix] allows every domain ending with
    [suffix] and any other pattern allows exactly the domain equal to
    it. *)
Theorem isDomainAllowed_spec (domain : string) :
  SignatureService.isDomainAllowed (JStr domain) None = Ret false /\
  SignatureService.isDomainAllowed (JStr domain) (Some []) = Ret false /\
  (forall patterns,
      SignatureService.isDomainAllowed (JStr domain) patterns
      = Ret (spec_isDomainAllowed domain patterns)).
Proof.
  split; [reflexivity|]. split; [reflexivity|].
  intros [[|p ps]|]; try reflexivity.
  unfold SignatureService.isDomainAllowed, spec_isDomainAllowed. simpl SignatureService.normalizeDomain. cbv iota beta.
  f_equal. apply existsb_pointwise. intros q.
  rewrite !normalize_spec. apply wildcard_branch_spec.
Qed.

(** ** Daily quota *)

Section Quota.
Import ValidationService.

(** C8: with no counter row for the day (and no database fault), the
    code takes the count as 0 and allows the request exactly when
    [0 < maxRequests]: with [max_requests_per_day = 0] it refuses. *)
Theorem checkRateLimit_absent_counter (env : Env) (apiKeyId maxRequests : Z) (db : Db) :
  db_fault db = None ->
  filter (fun r => (r_api_key_id r =? apiKeyId) && String.eqb (r_date r) (today env))
         (rate_limit_tracking db) = [] ->
  checkRateLimit env apiKeyId maxRequests db
  = (db, Ret (mkRateCheck (0 <? maxRequests) (Some 0) (Some maxRequests))).
Proof.
  intros Hf Hrows. unfold checkRateLimit, bind, get_db, single.
  rewrite Hf, Hrows. reflexivity.
Qed.

Lemma checkRateLimit_absent_counter_witness :
  checkRateLimit Fixtures.env0 1 0 Fixtures.db0
  = (Fixtures.db0, Ret (mkRateCheck false (Some 0) (Some 0))).
Proof.
  apply (checkRateLimit_absent_counter Fixtures.env0 1 0 Fixtures.db0); reflexivity.
Defined.

End Quota.

(** ** Outcome of a validation run *)

Section Outcome.
Import ValidationService ValidateController.

Lemma createErrorResponse_ret (code msg : string) (ld : LogData) (db : Db) :
  exists db', createErrorResponse code msg ld db = (db', Ret (RFailure code msg)).
Proof. eexists. reflexivity. Qed.

(** [validateLicense] never raises: every fault inside the checks is
    caught and answered with [INTERNAL_ERROR]. *)
Lemma validateLicense_returns (env : Env) (req : obj) (ip : string) (db : Db) :
  exists db' r, validateLicense env req ip db = (db', Ret r).
Proof.
  unfold validateLicense. cbv zeta.
  destruct (0 <? List.length (filter _ requiredFields))%nat.
  { destruct (createErrorResponse_ret "MISSING_FIELDS"
      ("Missing required fields: " ++ js_join ", " (filter (fun field => negb (truthy (obj_get req field))) requiredFields))%string
      (mkLogData (obj_get req "domain") ip "failed" req None None None None) db) as [db' H].
    eauto. }
  destruct (negb (SignatureService.isTimestampValid _ _ _)).
  { edestruct createErrorResponse_ret as [db' H]. eauto. }
  unfold bind at 1, get_db.
  destruct (single db _) as [apiKeyData|c].
  - unfold try_catch.
    destruct (checksAfterKey _ _ _ _ _ db) as [db1 [r|e]].
    + eauto.
    + edestruct createErrorResponse_ret as [db' H]. eauto.
  - edestruct createErrorResponse_ret as [db' H]. eauto.
Qed.

(** C9: the controller answers 200 on success and 403 on every
    failure [validateLicense] returns, [MISSING_FIELDS] and
    [INTERNAL_ERROR] included; status 400 and the 500 branch are never
    reached.  A request with [timestamp: 0] gets 403 with
    [MISSING_FIELDS], one with an over-long signature 403 with
    [INTERNAL_ERROR]. *)
Theorem validateRequest_status (env : Env) (body : obj) (ip : string) (db : Db) :
  (exists db' r, validateRequest env body ip db
                 = (db', Ret ((if success r then 200 else 403), r))) /\
  snd (validateRequest Fixtures.env0 Fixtures.req_zero_timestamp "1.2.3.4" Fixtures.db0)
  = Ret (403, RFailure "MISSING_FIELDS" "Missing required fields: timestamp") /\
  snd (validateRequest Fixtures.env0 Fixtures.req_long_signature "1.2.3.4" Fixtures.db0)
  = Ret (403, RFailure "INTERNAL_ERROR" "An error occurred during validation").
Proof.
  split; [|split; vm_compute; reflexivity].
  destruct (validateLicense_returns env body ip db) as (db' & r & H).
  exists db', r. unfold validateRequest, try_catch, bind. rewrite H. reflexivity.
Qed.

(** C1: the well-formed request [req0] passes every check, while the
    same request with one character appended to its signature, which
    fails only the signature check, is answered [INTERNAL_ERROR]
    rather than [INVALID_SIGNATURE]: [verify] raises on the length
    mismatch and the [catch] block of [validateLicense] reports it. *)
Theorem validateLicense_signature_length_internal_error :
  match snd (validateLicense Fixtures.env0 Fixtures.req0 "1.2.3.4" Fixtures.db0) with
  | Ret r => success r
  | Raise _ => false
  end = true /\
  snd (validateLicense Fixtures.env0 Fixtures.req_long_signature "1.2.3.4" Fixtures.db0)
  = Ret (RFailure "INTERNAL_ERROR" "An error occurred during validation").
Proof. split; vm_compute; reflexivity. Qed.

(** ** Required fields *)

(** The fields [validateLicense] reports as missing. *)
Definition missing_of (req : obj) : list string :=
  filter (fun field => negb (truthy (obj_get req field))) requiredFields.

Lemma validateLicense_missing (env : Env) (req : obj) (ip : string) (db : Db) :
  (0 <? List.length (missing_of req))%nat = true ->
  validateLicense env req ip db
  = createErrorResponse "MISSING_FIELDS"
      ("Missing required fields: " ++ js_join ", " (missing_of req))%string
      (mkLogData (obj_get req "domain") ip "failed" req None None None None) db.
Proof.
  intros H. unfold validateLicense. cbv zeta. unfold missing_of in H. rewrite H. reflexivity.
Qed.

Lemma obj_get_app_absent (o : obj) (k k' : string) (v : jsval) :
  existsb (fun p => String.eqb k (fst p)) o = false ->
  obj_get (o ++ [(k, v)]) k' = if String.eqb k' k then v else obj_get o k'.
Proof.
  induction o as [|[k1 v1] o IH]; simpl; intros H.
  - destruct (String.eqb k' k); reflexivity.
  - apply orb_false_iff in H as [H1 H2]. rewrite (IH H2).
    destruct (String.eqb_spec k' k1) as [->|]; [|reflexivity].
    rewrite String.eqb_sym, H1. reflexivity.
Qed.

Lemma obj_get_map_other (o : obj) (k k' : string) (v : jsval) :
  k' <> k ->
  obj_get (map (fun p => if String.eqb k (fst p) then (k, v) else p) o) k' = obj_get o k'.
Proof.
  intros Hne. induction o as [|[k1 v1] o IH]; simpl; [reflexivity|].
  destruct (String.eqb_spec k k1) as [->|Hk]; simpl.
  - rewrite IH. destruct (String.eqb_spec k' k1); [contradiction|reflexivity].
  - rewrite IH. reflexivity.
Qed.

Lemma obj_get_map_same (o : obj) (k : string) (v : jsval) :
  existsb (fun p => String.eqb k (fst p)) o = true ->
  obj_get (map (fun p => if String.eqb k (fst p) then (k, v) else p) o) k = v.
Proof.
  induction o as [|[k1 v1] o IH]; simpl; intros H; [discriminate|].
  destruct (String.eqb_spec k k1) as [->|Hk]; simpl.
  - rewrite String.eqb_refl. reflexivity.
  - destruct (String.eqb_spec k k1); [contradiction|]. apply IH. exact H.
Qed.

Lemma obj_get_map_set (o : obj) (k k' : string) (v : jsval) :
  existsb (fun p => String.eqb k (fst p)) o = true ->
  obj_get (map (fun p => if String.eqb k (fst p) then (k, v) else p) o) k'
  = if String.eqb k' k then v else obj_get o k'.
Proof.
  intros H. destruct (String.eqb_spec k' k) as [->|Hne].
  - apply obj_get_map_same. exact H.
  - apply obj_get_map_other. exact Hne.
Qed.

Lemma obj_get_set (o : obj) (k k' : string) (v : jsval) :
  obj_get (obj_set o k v) k' = if String.eqb k' k then v else obj_get o k'.
Proof.
  unfold obj_set. destruct (existsb _ o) eqn:E.
  - apply obj_get_map_set. exact E.
  - apply obj_get_app_absent. exact E.
Qed.

Lemma obj_get_delete (o : obj) (k k' : string) :
  obj_get (obj_delete o k) k' = if String.eqb k' k then JUndefined else obj_get o k'.
Proof.
  unfold obj_delete. induction o as [|[k1 v1] o IH]; simpl.
  - destruct (String.eqb k' k); reflexivity.
  - destruct (String.eqb_spec k k1) as [->|Hk]; simpl.
    + rewrite IH. destruct (String.eqb k' k1); reflexivity.
    + rewrite IH. destruct (String.eqb_spec k' k1) as [->|]; [|reflexivity].
      destruct (String.eqb_spec k1 k) as [E|]; [congruence|reflexivity].
Qed.

Lemma missing_of_falsy_set (req : obj) (f : string) (v : jsval) :
  truthy v = false -> missing_of (obj_set req f v) = missing_of (obj_delete req f).
Proof.
  intros Hv. unfold missing_of. apply filter_ext. intros field.
  rewrite obj_get_set, obj_get_delete. destruct (String.eqb field f); [rewrite Hv|]; reflexivity.
Qed.

Lemma missing_of_falsy_nonempty (req : obj) (f : string) (v : jsval) :
  In f requiredFields -> truthy v = false ->
  (0 <? List.length (missing_of (obj_set req f v)))%nat = true.
Proof.
  intros Hin Hv. apply Nat.ltb_lt.
  assert (In f (missing_of (obj_set req f v))) as Hm.
  { unfold missing_of. apply filter_In. split; [exact Hin|].
    rewrite obj_get_set, String.eqb_refl, Hv. reflexivity. }
  destruct (missing_of (obj_set req f v)); [contradiction|simpl; lia].
Qed.

(** C10: a required field holding a falsy value ([0], [""], [null],
    [false]) is rejected with [MISSING_FIELDS] as the first check, with
    the same answer as when the field is absent, and the run only
    appends one log entry to the store. *)
Theorem validateLicense_falsy_field_missing (env : Env) (req : obj) (ip : string) (db : Db)
  (f : string) (v : jsval) :
  In f requiredFields -> truthy v = false ->
  exists msg ld,
    validateLicense env (obj_set req f v) ip db
    = (set_validation_logs (validation_logs db ++ [ld]) db,
       Ret (RFailure "MISSING_FIELDS" msg)) /\
    snd (validateLicense env (obj_delete req f) ip db) = Ret (RFailure "MISSING_FIELDS" msg).
Proof.
  intros Hin Hv.
  pose proof (missing_of_falsy_nonempty req f v Hin Hv) as Hne.
  pose proof Hne as Hne'. rewrite (missing_of_falsy_set req f v Hv) in Hne'.
  rewrite (validateLicense_missing env _ ip db Hne), (validateLicense_missing env _ ip db Hne').
  rewrite (missing_of_falsy_set req f v Hv).
  eexists; eexists. split; reflexivity.
Qed.

Lemma validateLicense_falsy_field_missing_witness :
  exists msg ld,
    validateLicense Fixtures.env0 (obj_set Fixtures.req0 "timestamp" (JNum 0)) "1.2.3.4" Fixtures.db0
    = (set_validation_logs (validation_logs Fixtures.db0 ++ [ld]) Fixtures.db0,
       Ret (RFailure "MISSING_FIELDS" msg)) /\
    snd (validateLicense Fixtures.env0 (obj_delete Fixtures.req0 "timestamp") "1.2.3.4" Fixtures.db0)
    = Ret (RFailure "MISSING_FIELDS" msg).
Proof.
  apply (validateLicense_falsy_field_missing Fixtures.env0 Fixtures.req0 "1.2.3.4" Fixtures.db0
           "timestamp" (JNum 0)).
  - vm_compute. right. right. right. left. reflexivity.
  - reflexivity.
Defined.

End Outcome.

(* ================================================================= *)
(** * Further properties of the signature service                     *)
(* ================================================================= *)

Lemma hex_digit_hex_char (n : Z) : 0 <= n <= 15 -> is_hex_char (hex_digit n) = true.
Proof.
  intros Hn.
  assert (In n (map Z.of_nat (seq 0 16))) as Hin.
  { apply in_map_iff. exists (Z.to_nat n). split; [apply Z2Nat.id; lia|].
    apply in_seq. lia. }
  simpl in Hin. repeat (destruct Hin as [<- | Hin]; [reflexivity|]). contradiction.
Qed.

Lemma byte_nibbles (b : Z) :
  is_byte b -> 0 <= Z.shiftr b 4 <= 15 /\ 0 <= Z.land b 15 <= 15.
Proof.
  unfold is_byte. intros Hb. split.
  - rewrite Z.shiftr_div_pow2 by lia. change (2 ^ 4) with 16.
    split; [apply Z.div_pos; lia|].
    assert (b / 16 < 16) by (apply Z.div_lt_upper_bound; lia). lia.
  - assert (E : Z.land b 15 = b mod 16) by (apply (Z.land_ones b 4); lia).
    rewrite E. pose proof (Z.mod_pos_bound b 16 ltac:(lia)). lia.
Qed.

Lemma hex_length (bs : list Z) : String.length (hex bs) = (2 * List.length bs)%nat.
Proof. induction bs as [|b bs IH]; simpl; [reflexivity|]. rewrite IH. lia. Qed.

Lemma hex_lower_hex (bs : list Z) : Forall is_byte bs -> is_lower_hex (hex bs) = true.
Proof.
  induction bs as [|b bs IH]; intros Hb; [reflexivity|].
  inversion Hb as [|? ? Hbyte Hrest]; subst.
  destruct (byte_nibbles b Hbyte) as [Hhi Hlo].
  unfold is_lower_hex in *. simpl.
  rewrite (hex_digit_hex_char _ Hhi), (hex_digit_hex_char _ Hlo). simpl. apply IH. exact Hrest.
Qed.

Lemma substring_prefix_length (n : nat) (s : string) :
  (n <= String.length s)%nat -> String.length (substring 0 n s) = n.
Proof.
  revert s; induction n as [|n IH]; intros s Hn; [destruct s; reflexivity|].
  destruct s as [|c s]; simpl in *; [lia|]. rewrite IH by lia. reflexivity.
Qed.

Lemma substring_prefix_lower_hex (n : nat) (s : string) :
  is_lower_hex s = true -> is_lower_hex (substring 0 n s) = true.
Proof.
  revert s; induction n as [|n IH]; intros s Hs; [destruct s; reflexivity|].
  destruct s as [|c s]; [reflexivity|].
  unfold is_lower_hex in *. simpl in *. apply andb_true_iff in Hs as [Hc Hs].
  rewrite Hc. apply IH. exact Hs.
Qed.

(** [hashIp] always returns 16 lower-case hexadecimal characters. *)
Theorem hashIp_shape (ip : string) :
  String.length (SignatureService.hashIp ip) = 16%nat /\
  is_lower_hex (SignatureService.hashIp ip) = true.
Proof.
  unfold SignatureService.hashIp. split.
  - apply substring_prefix_length. rewrite hex_length, hash_length. lia.
  - apply substring_prefix_lower_hex, hex_lower_hex, hash_bytes.
Qed.

(** [generateNonce] turns its 32 random bytes into 64 lower-case
    hexadecimal characters, a length the [/validate/request] route
    accepts for a nonce (32 to 128). *)
Theorem generateNonce_shape (randomBytes : list Z) :
  Forall is_byte randomBytes -> List.length randomBytes = 32%nat ->
  String.length (SignatureService.generateNonce randomBytes) = 64%nat /\
  is_lower_hex (SignatureService.generateNonce randomBytes) = true.
Proof.
  intros Hb Hl. unfold SignatureService.generateNonce. split.
  - rewrite hex_length, Hl. reflexivity.
  - apply hex_lower_hex. exact Hb.
Qed.

Lemma generateNonce_shape_witness :
  let rb := map Z.of_nat (seq 200 32) in
  String.length (SignatureService.generateNonce rb) = 64%nat /\
  is_lower_hex (SignatureService.generateNonce rb) = true.
Proof.
  apply generateNonce_shape.
  - vm_compute. repeat constructor; discriminate.
  - reflexivity.
Defined.

Lemma append_cancel_l (p a b : string) : (p ++ a)%string = (p ++ b)%string -> a = b.
Proof. induction p as [|c p IH]; simpl; [auto|]. intros H. injection H. exact IH. Qed.

Lemma colon_split (a b d1 d2 : string) :
  no_colon a = true -> no_colon b = true ->
  (a ++ String ":" d1)%string = (b ++ String ":" d2)%string -> a = b /\ d1 = d2.
Proof.
  unfold no_colon. revert b. induction a as [|c a IH]; intros b Ha Hb H.
  - destruct b as [|c' b]; simpl in H.
    + injection H. auto.
    + injection H as Hc _. subst c'. discriminate.
  - destruct b as [|c' b]; simpl in H.
    + injection H as Hc _. subst c. discriminate.
    + injection H as Hc H. subst c'. simpl in Ha, Hb.
      apply negb_true_iff, orb_false_iff in Ha as [_ Ha].
      apply negb_true_iff, orb_false_iff in Hb as [_ Hb].
      destruct (IH b (proj2 (negb_true_iff _) Ha) (proj2 (negb_true_iff _) Hb) H) as [-> ->].
      split; reflexivity.
Qed.

(** [generateRateLimitKey] is injective on key ids without [:]: two
    (key id, date) pairs share a rate-limit key only when they are
    equal. *)
Theorem generateRateLimitKey_injective (id1 id2 d1 d2 : string) :
  no_colon id1 = true -> no_colon id2 = true ->
  SignatureService.generateRateLimitKey id1 d1 = SignatureService.generateRateLimitKey id2 d2 ->
  id1 = id2 /\ d1 = d2.
Proof.
  unfold SignatureService.generateRateLimitKey. intros H1 H2 H.
  apply append_cancel_l in H. exact (colon_split id1 id2 d1 d2 H1 H2 H).
Qed.

Lemma generateRateLimitKey_injective_witness :
  "42"%string = "42"%string /\ "2023-11-14"%string = "2023-11-14"%string.
Proof.
  apply (generateRateLimitKey_injective "42" "42" "2023-11-14" "2023-11-14");
    reflexivity.
Defined.

Lemma strip_prefix_ends_with (pre s r : string) :
  strip_prefix pre s = Some r -> ends_with s r = true.
Proof.
  revert s; induction pre as [|c pre IH]; intros s H.
  - simpl in H. injection H as <-. destruct s as [|c s]; [reflexivity|].
    change (String.eqb (String c s) (String c s) || ends_with s (String c s) = true).
    rewrite String.eqb_refl. reflexivity.
  - destruct s as [|c' s]; [discriminate|]. simpl in H.
    destruct (Ascii.eqb c c'); [|discriminate].
    change (ends_with (String c' s) r) with (String.eqb (String c' s) r || ends_with s r).
    rewrite (IH s H). apply orb_true_r.
Qed.

(** A domain that appears verbatim in a key's allow-list is always
    allowed, whatever form the entry has (scheme, [www.], case,
    trailing [/], or a [*.] wildcard). *)
Theorem isDomainAllowed_listed (domain : string) (allowed : list string) :
  In domain allowed ->
  SignatureService.isDomainAllowed (JStr domain) (Some allowed) = Ret true.
Proof.
  intros Hin. destruct allowed as [|a rest]; [contradiction|].
  unfold SignatureService.isDomainAllowed. simpl SignatureService.normalizeDomain.
  cbv iota beta. f_equal. apply existsb_exists. exists domain. split; [exact Hin|].
  rewrite wildcard_branch_spec.
  destruct (strip_prefix "*." (SignatureService.normalize domain)) eqn:E.
  - exact (strip_prefix_ends_with _ _ _ E).
  - apply String.eqb_refl.
Qed.

Lemma isDomainAllowed_listed_witness :
  SignatureService.isDomainAllowed (JStr "https://WWW.Example.com/") (Some ["a.org"; "https://WWW.Example.com/"])%string
  = Ret true.
Proof. apply isDomainAllowed_listed. simpl. right. left. reflexivity. Defined.

(** On an allow-list whose wildcard entries use only digits, letters,
    [.], [:] and [*] (so that no pattern the code builds throws), an
    address listed verbatim (an entry without [*]) is always allowed. *)
Theorem isIpAllowed_listed (ip : string) (allowedIps : list string) :
  ip_list_plain (Some allowedIps) = true ->
  In ip allowedIps -> SignatureService.contains_star ip = false ->
  SignatureService.isIpAllowed ip (Some allowedIps) = true.
Proof.
  intros _ Hin Hs. destruct allowedIps as [|a rest]; [contradiction|].
  unfold SignatureService.isIpAllowed. apply existsb_exists. exists ip. split; [exact Hin|].
  rewrite Hs. apply String.eqb_refl.
Qed.

Lemma isIpAllowed_listed_witness :
  ip_list_plain (Some ["192.168.1.*"; "10.0.0.1"])%string = true /\
  SignatureService.isIpAllowed "10.0.0.1" (Some ["192.168.1.*"; "10.0.0.1"])%string = true.
Proof.
  split; [reflexivity|].
  apply isIpAllowed_listed; [reflexivity | simpl; right; left; reflexivity | reflexivity].
Defined.

Lemma str_append_assoc (a b c : string) : ((a ++ b) ++ c)%string = (a ++ (b ++ c))%string.
Proof. induction a as [|x a IH]; simpl; [reflexivity|]. rewrite IH. reflexivity. Qed.

(** The payload is ambiguous: a value holding [&k2=v2] signs like a
    separate field [k2] (for a key [k1] before [k2]), so the two field
    sets share their signature under every secret. *)
Theorem createPayload_collision (k1 k2 v1 v2 secret : string) :
  str_lt k1 k2 ->
  SignatureService.createPayload [(k1, JStr (v1 ++ "&" ++ k2 ++ "=" ++ v2))]%string
  = SignatureService.createPayload [(k1, JStr v1); (k2, JStr v2)] /\
  SignatureService.sign [(k1, JStr (v1 ++ "&" ++ k2 ++ "=" ++ v2))]%string secret
  = SignatureService.sign [(k1, JStr v1); (k2, JStr v2)] secret.
Proof.
  intros Hlt.
  assert (Hp : SignatureService.createPayload [(k1, JStr (v1 ++ "&" ++ k2 ++ "=" ++ v2))]%string
               = SignatureService.createPayload [(k1, JStr v1); (k2, JStr v2)]).
  { assert (Hne : String.eqb k2 k1 = false).
    { destruct (String.eqb_spec k2 k1) as [->|]; [|reflexivity].
      exfalso. exact (str_lt_asym k1 k1 Hlt Hlt). }
    unfold SignatureService.createPayload, js_sort, object_keys. simpl.
    unfold str_lt in Hlt. rewrite Hlt. simpl.
    unfold SignatureService.push_part. simpl. rewrite String.eqb_refl, Hne, String.eqb_refl.
    simpl. rewrite !str_append_assoc. reflexivity. }
  split; [exact Hp|]. unfold SignatureService.sign. rewrite Hp. reflexivity.
Qed.

Lemma createPayload_collision_witness :
  SignatureService.createPayload [("a", JStr "1&b=2")]%string
  = SignatureService.createPayload [("a", JStr "1"); ("b", JStr "2")]%string /\
  SignatureService.sign [("a", JStr "1&b=2")]%string "k"
  = SignatureService.sign [("a", JStr "1"); ("b", JStr "2")]%string "k".
Proof. apply (createPayload_collision "a" "b" "1" "2" "k"). reflexivity. Defined.

(** Shared with the challenge round trip: [verify] accepts what [sign]
    computes. *)
Lemma verify_sign_self (fields : obj) (secret : string) :
  SignatureService.verify fields (JStr (SignatureService.sign fields secret)) secret = Ret true.
Proof.
  unfold SignatureService.verify, SignatureService.buffer_from,
         SignatureService.timingSafeEqual.
  rewrite Nat.eqb_refl, forallb_combine_self. reflexivity.
Qed.

(** A challenge answered with its own nonce, timestamp and signature
    is accepted by [verifyChallengeResponse] exactly when the answer
    comes within 60 seconds of the challenge (either way), the window
    that ends at the challenge's [expires_at]. *)
Theorem challenge_roundtrip (now now' : Z) (randomBytes : list Z) (apiKey : jsval)
  (productSecret : string) :
  let ch := SignatureService.createChallenge now randomBytes apiKey productSecret in
  let response : obj :=
    [("api_key", apiKey); ("nonce", JStr (SignatureService.ch_nonce ch));
     ("timestamp", JNum (SignatureService.ch_timestamp ch));
     ("signature", JStr (SignatureService.ch_signature ch))]%string in
  SignatureService.ch_expires_at ch = SignatureService.ch_timestamp ch + 60 /\
  SignatureService.verifyChallengeResponse now' response (JStr (SignatureService.ch_nonce ch))
    productSecret
  = Ret (Z.abs (now' - SignatureService.ch_timestamp ch) <=? 60).
Proof.
  cbv zeta. split; [reflexivity|].
  change (SignatureService.ch_timestamp
            (SignatureService.createChallenge now randomBytes apiKey productSecret)) with now.
  unfold SignatureService.verifyChallengeResponse. simpl obj_get.
  simpl SignatureService.js_strict_eq. rewrite String.eqb_refl. simpl negb. cbv iota.
  unfold SignatureService.isTimestampValid. simpl js_to_number.
  destruct (Z.abs (now' - now) <=? 60); simpl; [|reflexivity].
  apply verify_sign_self.
Qed.

(* ================================================================= *)
(** * Further properties of the validation pipeline                   *)
(* ================================================================= *)

(** Unfold one run of [validateLicense] down to the store operations
    and split on every test the code makes. *)
Ltac vl_unfold H :=
  unfold ValidationService.validateLicense, ValidationService.checksAfterKey,
         ValidationService.createErrorResponse, lift_throws, try_catch,
         ValidationService.incrementRateLimit, log, modify_db, bind, ret, raise, get_db in H;
  cbv beta iota zeta in H.

Ltac split_all :=
  repeat (match goal with
          | Hx : context [match ?x with _ => _ end] |- _ => destruct x eqn:?
          end; cbv beta iota zeta in *).

Ltac leaf_cleanup :=
  repeat match goal with
  | Hx : (_, _) = (_, _) |- _ => injection Hx; clear Hx; intros; subst
  | Hx : Ret _ = Ret _ |- _ => injection Hx; clear Hx; intros; subst
  | Hx : Ret _ = Raise _ |- _ => discriminate Hx
  | Hx : Raise _ = Ret _ |- _ => discriminate Hx
  end.

Ltac bool_facts :=
  repeat match goal with
  | Hx : negb _ = false |- _ => apply negb_false_iff in Hx
  | Hx : negb _ = true |- _ => apply negb_true_iff in Hx
  | Hx : String.eqb _ _ = true |- _ => apply String.eqb_eq in Hx
  | Hx : String.eqb _ _ = false |- _ => apply String.eqb_neq in Hx
  | Hx : (_ <? _) = false |- _ => apply Z.ltb_ge in Hx
  | Hx : (_ <? _) = true |- _ => apply Z.ltb_lt in Hx
  end.

Section PipelineSteps.
Import ValidationService.
Local Open Scope string_scope.
Local Open Scope Z_scope.

Lemma checkRateLimit_db (env : Env) (k m : Z) (db d : Db) (t : throws RateCheck) :
  checkRateLimit env k m db = (d, t) -> d = db /\ exists rc, t = Ret rc.
Proof.
  unfold checkRateLimit, bind, get_db, ret.
  destruct (single db _) as [row|c]; [|destruct (negb _)];
    intros [= <- <-]; eauto.
Qed.

Lemma checkAndMarkNonce_result (env : Env) (n : jsval) (k : Z) (db d : Db) (t : throws NonceCheck) :
  checkAndMarkNonce env n k db = (d, t) ->
  exists nc, t = Ret nc /\
    (valid nc = false /\ d = db \/
     valid nc = true /\ exists row,
       nonce_select db n k = SData row /\ n_used row = false /\
       now_ms env <= n_expires_at row /\ d = mark_used (n_id row) db).
Proof.
  rewrite checkAndMarkNonce_unfold.
  destruct (nonce_select db n k) as [row|c] eqn:Hs; simpl.
  - destruct (n_used row) eqn:Hu; simpl.
    { intros [= <- <-]. eexists; split; [reflexivity|]. left. auto. }
    destruct (n_expires_at row <? now_ms env) eqn:He; simpl.
    { intros [= <- <-]. eexists; split; [reflexivity|]. left. auto. }
    intros [= <- <-]. eexists; split; [reflexivity|]. right. split; [reflexivity|].
    exists row. apply Z.ltb_ge in He. auto.
  - intros [= <- <-]. eexists; split; [reflexivity|]. left. auto.
Qed.

Lemma str_strict_neq_false (a : string) (v : jsval) :
  str_strict_neq a v = false -> v = JStr a.
Proof.
  destruct v; simpl; try discriminate.
  intros H. apply negb_false_iff, String.eqb_eq in H. subst. reflexivity.
Qed.

End PipelineSteps.

(** Replace the rate and nonce steps of a run by what they do to the store. *)
Ltac frames :=
  repeat match goal with
  | Hr : ValidationService.checkRateLimit _ _ _ _ = (_, Raise _) |- _ =>
      destruct (checkRateLimit_db _ _ _ _ _ _ Hr) as [_ [? ?]]; discriminate
  | Hr : ValidationService.checkRateLimit _ _ _ ?d0 = (?d1, _) |- _ =>
      tryif constr_eq d0 d1 then fail else
      (let E := fresh "E" in destruct (checkRateLimit_db _ _ _ _ _ _ Hr) as [E _]; subst d1)
  | Hn : ValidationService.checkAndMarkNonce _ _ _ _ = _ |- _ =>
      let E := fresh "E" in let T := fresh "T" in let nc := fresh "nc" in
      let V := fresh "V" in let row := fresh "row" in
      destruct (checkAndMarkNonce_result _ _ _ _ _ _ Hn)
        as (nc & T & [[V E] | [V (row & ? & ? & ? & E)]]); clear Hn; subst;
      try discriminate T; try (injection T; clear T; intros; subst)
  end.

Section Pipeline.
Import ValidationService.
Local Open Scope string_scope.
Local Open Scope Z_scope.

Lemma validateLicense_success_inv (env : Env) (req : obj) (ip : string) (db db' : Db)
  (r : Response) :
  validateLicense env req ip db = (db', Ret r) -> success r = true ->
  exists key row rc,
    single db (filter (fun k => String.eqb (ak_api_key k) (js_to_string (obj_get req "api_key")))
                      (api_keys db)) = SData key /\
    SignatureService.isTimestampValid (now_seconds env) (obj_get req "timestamp") 15 = true /\
    ak_status key = "active" /\
    (exists p, ak_product key = Some p /\ product_status p = "active") /\
    obj_get req "product_id" = JStr (ak_product_id key) /\
    (exists u, ak_user key = Some u /\ user_status u = "active") /\
    (forall o, ak_order key = Some o ->
       payment_status o = "paid" /\ forall d, end_date o = Some d -> now_ms env <= d) /\
    SignatureService.isDomainAllowed (obj_get req "domain") (ak_allowed_domains key) = Ret true /\
    SignatureService.isIpAllowed ip (ak_allowed_ips key) = true /\
    checkRateLimit env (ak_id key) (ak_max_requests_per_day key) db = (db, Ret rc) /\
    allowed rc = true /\
    nonce_select db (obj_get req "nonce") (ak_id key) = SData row /\
    n_used row = false /\ now_ms env <= n_expires_at row /\
    SignatureService.verify
      [("product_id", obj_get req "product_id"); ("domain", obj_get req "domain");
       ("api_key", obj_get req "api_key"); ("timestamp", obj_get req "timestamp");
       ("nonce", obj_get req "nonce")]
      (obj_get req "signature") (ak_api_secret key) = Ret true /\
    api_keys db' = api_keys (touch_key (now_ms env) (ak_id key) db) /\
    nonce_store db' = nonce_store (mark_used (n_id row) db) /\
    db_fault db' = db_fault db.
Proof.
  intros H Hs. vl_unfold H. split_all. all: leaf_cleanup; try discriminate.
  all: bool_facts.
  all: frames; try congruence.
  all: match goal with Hk : single _ _ = SData ?k |- _ => exists k end.
  all: exists row; eexists.
  all: repeat split; eauto using str_strict_neq_false.
  all: intros; try congruence.
  all: match goal with
       | Ho1 : ak_order ?a = Some _, Ho2 : ak_order ?a = Some _ |- _ =>
           rewrite Ho1 in Ho2; injection Ho2 as <-
       end.
  all: match goal with
       | He1 : end_date ?o = Some _, He2 : end_date ?o = Some _ |- _ =>
           rewrite He1 in He2; injection He2 as <-
       end; assumption.
Qed.

(** A successful validation passed every check on the store it ran
    against: exactly one key row carries the request's [api_key]; a
    numeric timestamp is within 15 seconds of the current time; the
    key, its product and its user are active; the request names the
    key's product; a joined order is paid and not past its end date;
    the domain is allowed, and so is the IP when the key's IP
    allow-list is plain ([ip_list_plain]); the day's
    quota allows the request; the nonce record for this key exists, is
    unused and unexpired; and the signature verifies under the key's
    secret. *)
Theorem validateLicense_success_sound (env : Env) (req : obj) (ip : string) (db db' : Db)
  (r : Response) :
  validateLicense env req ip db = (db', Ret r) -> success r = true ->
  exists key row rc,
    single db (filter (fun k => String.eqb (ak_api_key k) (js_to_string (obj_get req "api_key")))
                      (api_keys db)) = SData key /\
    (forall t, obj_get req "timestamp" = JNum t -> Z.abs (now_seconds env - t) <= 15) /\
    ak_status key = "active" /\
    (exists p, ak_product key = Some p /\ product_status p = "active") /\
    obj_get req "product_id" = JStr (ak_product_id key) /\
    (exists u, ak_user key = Some u /\ user_status u = "active") /\
    (forall o, ak_order key = Some o ->
       payment_status o = "paid" /\ forall d, end_date o = Some d -> now_ms env <= d) /\
    SignatureService.isDomainAllowed (obj_get req "domain") (ak_allowed_domains key) = Ret true /\
    (ip_list_plain (ak_allowed_ips key) = true ->
       SignatureService.isIpAllowed ip (ak_allowed_ips key) = true) /\
    checkRateLimit env (ak_id key) (ak_max_requests_per_day key) db = (db, Ret rc) /\
    allowed rc = true /\
    nonce_select db (obj_get req "nonce") (ak_id key) = SData row /\
    n_used row = false /\ now_ms env <= n_expires_at row /\
    SignatureService.verify
      [("product_id", obj_get req "product_id"); ("domain", obj_get req "domain");
       ("api_key", obj_get req "api_key"); ("timestamp", obj_get req "timestamp");
       ("nonce", obj_get req "nonce")]
      (obj_get req "signature") (ak_api_secret key) = Ret true.
Proof.
  intros H Hs.
  destruct (validateLicense_success_inv env req ip db db' r H Hs)
    as (key & row & rc & H1 & H2 & H3 & H4 & H5 & H6 & H7 & H8 & H9 & H10 & H11 & H12 & H13
        & H14 & H15 & _).
  assert (H2' : forall t, obj_get req "timestamp" = JNum t -> Z.abs (now_seconds env - t) <= 15).
  { intros t Ht. unfold SignatureService.isTimestampValid in H2. rewrite Ht in H2.
    apply Z.leb_le, H2. }
  assert (H9' : ip_list_plain (ak_allowed_ips key) = true ->
                SignatureService.isIpAllowed ip (ak_allowed_ips key) = true) by (intros; exact H9).
  clear H2 H9. exists key, row, rc. tauto.
Qed.


Lemma filter_negb_forallb {A} (f : A -> bool) (l : list A) :
  forallb f l = true -> filter (fun x => negb (f x)) l = [].
Proof.
  induction l as [|x l IH]; simpl; [reflexivity|].
  intros H. apply andb_true_iff in H as [-> H]. simpl. apply IH, H.
Qed.




End Pipeline.

Section PipelineRuns.
Import ValidationService.
Local Open Scope string_scope.
Local Open Scope Z_scope.

Lemma key_lookup_map (s : string) (f : ApiKeyRow -> ApiKeyRow) (db d' : Db) (key : ApiKeyRow) :
  (forall k, ak_api_key (f k) = ak_api_key k) ->
  api_keys d' = map f (api_keys db) -> db_fault d' = db_fault db ->
  single db (filter (fun k => String.eqb (ak_api_key k) s) (api_keys db)) = SData key ->
  single d' (filter (fun k => String.eqb (ak_api_key k) s) (api_keys d')) = SData (f key).
Proof.
  intros Hf Hk Hd. rewrite Hk. rewrite filter_map_comm by (intros k; rewrite Hf; reflexivity).
  unfold single. rewrite Hd. destruct (db_fault db); [discriminate|].
  destruct (filter _ (api_keys db)) as [|x [|y l]]; simpl; congruence.
Qed.

Lemma nonce_select_mark (db : Db) (n : jsval) (k : Z) (r : NonceRow) :
  nonce_select db n k = SData r ->
  nonce_select (mark_used (n_id r) db) n k
  = SData (mkNonce (n_id r) (n_nonce r) (n_api_key_id r) true (n_expires_at r)).
Proof.
  unfold nonce_select, single. simpl. destruct (db_fault db); [discriminate|].
  rewrite filter_map_comm by (intros x; destruct (n_id x =? n_id r); reflexivity).
  destruct (filter _ (nonce_store db)) as [|x [|y l]]; simpl; try discriminate.
  intros [= ->]. rewrite Z.eqb_refl. reflexivity.
Qed.

Lemma nonce_select_store (d d' : Db) (n : jsval) (k : Z) :
  nonce_store d' = nonce_store d -> db_fault d' = db_fault d ->
  nonce_select d' n k = nonce_select d n k.
Proof. intros Hn Hf. unfold nonce_select, single. rewrite Hn, Hf. reflexivity. Qed.

Lemma validateLicense_expired_inv (env : Env) (req : obj) (ip : string) (db db' : Db) (m : string) :
  validateLicense env req ip db = (db', Ret (RFailure "SUBSCRIPTION_EXPIRED" m)) ->
  exists key,
    single db (filter (fun k => String.eqb (ak_api_key k) (js_to_string (obj_get req "api_key")))
                      (api_keys db)) = SData key /\
    api_keys db' = api_keys (expire_key (ak_id key) db) /\ db_fault db' = db_fault db.
Proof.
  intros H. vl_unfold H. split_all. all: leaf_cleanup; try discriminate.
  all: frames; try discriminate.
  all: eexists; split; [reflexivity | split; reflexivity].
Qed.

(** Every run of [validateLicense] that returns, on a store that is
    reachable at the start, appends exactly one row to
    [validation_logs]: its result is ["success"] exactly when the
    response is a success, its error code is the response's, and it
    records the request body and the client IP. *)
Theorem validateLicense_logs_once (env : Env) (req : obj) (ip : string) (db db' : Db)
  (r : Response) :
  db_fault db = None ->
  validateLicense env req ip db = (db', Ret r) ->
  exists ld,
    validation_logs db' = app (validation_logs db) [ld] /\
    ld_result ld = (if success r then "success" else "failed") /\
    ld_error_code ld = error_code r /\ ld_request_data ld = req /\ ld_ip_address ld = ip.
Proof.
  intros _ H. vl_unfold H. split_all. all: leaf_cleanup; try discriminate.
  all: frames.
  all: eexists; split; [reflexivity | repeat split; reflexivity].
Qed.

(** A rejected request leaves the day's rate counters as they were; it
    changes [api_keys] only when the subscription has expired, and it
    consumes the nonce only when it is rejected for its signature or by
    an internal error. *)
Theorem validateLicense_failure_frame (env : Env) (req : obj) (ip : string) (db db' : Db)
  (r : Response) :
  validateLicense env req ip db = (db', Ret r) -> success r = false ->
  rate_limit_tracking db' = rate_limit_tracking db /\
  (error_code r <> Some "SUBSCRIPTION_EXPIRED" -> api_keys db' = api_keys db) /\
  (error_code r <> Some "INVALID_SIGNATURE" -> error_code r <> Some "INTERNAL_ERROR" ->
   nonce_store db' = nonce_store db).
Proof.
  intros H Hs. vl_unfold H. split_all. all: leaf_cleanup; try discriminate.
  all: frames.
  all: cbn [success] in Hs; try discriminate Hs.
  all: bool_facts.
  all: split; [reflexivity | split; intros; cbn [error_code] in *; try reflexivity; congruence].
Qed.

End PipelineRuns.

Section PipelineReplay.
Import ValidationService.
Local Open Scope string_scope.
Local Open Scope Z_scope.

(** Once a request has been answered [SUBSCRIPTION_EXPIRED], the key is
    marked expired: any later well-formed request with the same
    [api_key] and a fresh timestamp, at any time and from any IP, is
    answered [API_KEY_INACTIVE] before its subscription is looked at. *)
Theorem validateLicense_expired_then_inactive (env env' : Env) (req req' : obj)
  (ip ip' : string) (db db' : Db) (m : string) :
  validateLicense env req ip db = (db', Ret (RFailure "SUBSCRIPTION_EXPIRED" m)) ->
  forallb (fun f => truthy (obj_get req' f)) requiredFields = true ->
  SignatureService.isTimestampValid (now_seconds env') (obj_get req' "timestamp") 15 = true ->
  js_to_string (obj_get req' "api_key") = js_to_string (obj_get req "api_key") ->
  snd (validateLicense env' req' ip' db') =
  Ret (RFailure "API_KEY_INACTIVE" "API key status: expired").
Proof.
  intros H Hf Hts Hkey.
  destruct (validateLicense_expired_inv _ _ _ _ _ _ H) as (key & Hk & Hapi & Hfault).
  assert (Hk' : single db' (filter (fun k => String.eqb (ak_api_key k)
                                        (js_to_string (obj_get req' "api_key"))) (api_keys db'))
                = SData (mkApiKey (ak_id key) (ak_api_key key) (ak_api_secret key) "expired"
                           (ak_product_id key) (ak_product key) (ak_user key) (ak_order key)
                           (ak_allowed_domains key) (ak_allowed_ips key)
                           (ak_max_requests_per_day key) (ak_last_request_at key))).
  { rewrite Hkey. erewrite key_lookup_map; [| | exact Hapi | exact Hfault | exact Hk].
    - cbv beta. rewrite Z.eqb_refl. reflexivity.
    - intros k. cbv beta. destruct (ak_id k =? ak_id key); reflexivity. }
  pose proof (filter_negb_forallb _ _ Hf) as Hmiss.
  destruct (validateLicense env' req' ip' db') as [d2 t] eqn:H2. simpl.
  vl_unfold H2. rewrite Hmiss in H2. split_all. all: leaf_cleanup; try discriminate.
  all: bool_facts; try congruence.
  all: match goal with Hs : SData _ = SData _ |- _ => injection Hs; clear Hs; intros; subst end.
  all: simpl in *; try discriminate; try reflexivity.
Qed.

(** A request that succeeded cannot succeed again: replayed on the
    store the first run left, at any time and from any IP, the same
    request is rejected, because its nonce is now marked used. *)
Theorem validateLicense_replay_rejected (env env' : Env) (req : obj) (ip ip' : string)
  (db db' db'' : Db) (r r' : Response) :
  validateLicense env req ip db = (db', Ret r) -> success r = true ->
  validateLicense env' req ip' db' = (db'', Ret r') -> success r' = false.
Proof.
  intros H1 Hs1 H2. destruct (success r') eqn:Hs2; [|reflexivity].
  destruct (validateLicense_success_inv _ _ _ _ _ _ H1 Hs1)
    as (key & row & rc & Hk & _ & _ & _ & _ & _ & _ & _ & _ & _ & _ & Hsel & _ & _ & _ &
        Hapi & Hnonce & Hfault).
  destruct (validateLicense_success_inv _ _ _ _ _ _ H2 Hs2)
    as (key2 & row2 & rc2 & Hk2 & _ & _ & _ & _ & _ & _ & _ & _ & _ & _ & Hsel2 & Hused2 & _).
  erewrite key_lookup_map in Hk2; [| | exact Hapi | exact Hfault | exact Hk].
  2: { intros k. cbv beta. destruct (ak_id k =? ak_id key); reflexivity. }
  injection Hk2 as <-. rewrite Z.eqb_refl in Hsel2. simpl in Hsel2.
  rewrite (nonce_select_store (mark_used (n_id row) db) db') in Hsel2
    by first [exact Hnonce | rewrite Hfault; reflexivity].
  rewrite (nonce_select_mark _ _ _ _ Hsel) in Hsel2.
  injection Hsel2 as <-. discriminate.
Qed.

End PipelineReplay.

Section IpWildcard.
Import SignatureService.
Local Open Scope string_scope.

Lemma star_suffix (s : string) : wildcard_match "*" s = no_line_terminator s.
Proof.
  induction s as [|c s IH]; [reflexivity|].
  change (wildcard_match "*" (String c s))
    with (String.eqb (String c s) EmptyString || (negb (line_terminator c) && wildcard_match "*" s)).
  rewrite IH. reflexivity.
Qed.

Lemma wildcard_prefix (p s : string) :
  contains_star p = false ->
  wildcard_match (p ++ "*") s = true <->
  exists rest, s = p ++ rest /\ no_line_terminator rest = true.
Proof.
  revert s. induction p as [|c p IH]; intros s Hp.
  - simpl. rewrite star_suffix. split; [intros H; exists s; auto | intros (r & -> & H); exact H].
  - unfold contains_star in Hp. simpl in Hp. apply orb_false_iff in Hp as [Hc Hp].
    assert (Hw : wildcard_match (String c p ++ "*") s =
                 match s with
                 | String c' s' => (c =? c')%char && wildcard_match (p ++ "*") s'
                 | EmptyString => false
                 end).
    { simpl. destruct c as [[] [] [] [] [] [] [] []]; try reflexivity; discriminate Hc. }
    rewrite Hw. destruct s as [|c' s'].
    + split; [discriminate | intros (r & H & _); discriminate H].
    + rewrite andb_true_iff, Ascii.eqb_eq, (IH s' Hp). split.
      * intros [<- (r & -> & H)]. exists r. auto.
      * intros (r & H & Hr). injection H as <- ->. eauto.
Qed.

End IpWildcard.

(** An allow-list entry made of a star-free prefix of digits,
    letters, [.] and [:] followed by a final [*] admits exactly the
    client IPs that start with that prefix and contain no line
    terminator after it. *)
Theorem isIpAllowed_prefix_wildcard (p ip : string) :
  ip_entry_plain p = true ->
  SignatureService.contains_star p = false ->
  SignatureService.isIpAllowed ip (Some [(p ++ "*")%string]) = true <->
  exists rest, ip = (p ++ rest)%string /\ no_line_terminator rest = true.
Proof.
  intros _ Hp. unfold SignatureService.isIpAllowed.
  assert (Hs : SignatureService.contains_star (p ++ "*") = true).
  { unfold SignatureService.contains_star. rewrite existsb_exists.
    exists "*"%char. split; [|reflexivity].
    induction p as [|c p IH]; simpl; [left; reflexivity|].
    right. apply IH. unfold SignatureService.contains_star in Hp. simpl in Hp.
    apply orb_false_iff in Hp as [_ Hp]. exact Hp. }
  simpl. rewrite Hs, orb_false_r. apply wildcard_prefix, Hp.
Qed.

Lemma isIpAllowed_prefix_wildcard_witness :
  ip_entry_plain "192.168.1." = true /\
  SignatureService.contains_star "192.168.1." = false /\
  SignatureService.isIpAllowed "192.168.1.77" (Some ["192.168.1.*"%string]) = true /\
  SignatureService.isIpAllowed "192.168.10.7" (Some ["192.168.1.*"%string]) = false.
Proof.
  split; [reflexivity|]. split; [reflexivity|]. split.
  - apply (isIpAllowed_prefix_wildcard "192.168.1." "192.168.1.77"); [reflexivity|reflexivity|].
    exists "77"%string. split; reflexivity.
  - vm_compute. reflexivity.
Defined.

Section PipelineWitnesses.
Import ValidationService Fixtures.
Local Open Scope string_scope.
Local Open Scope Z_scope.

Lemma validateLicense_success_sound_witness :
  exists key row rc,
    single db0 (filter (fun k => String.eqb (ak_api_key k) "lk_test") (api_keys db0)) = SData key /\
    ak_status key = "active" /\
    checkRateLimit env0 (ak_id key) (ak_max_requests_per_day key) db0 = (db0, Ret rc) /\
    allowed rc = true /\
    nonce_select db0 (JStr nonce0) (ak_id key) = SData row /\ n_used row = false.
Proof.
  destruct (validateLicense_success_sound env0 req0 "10.0.0.1" db0
              (fst (validateLicense env0 req0 "10.0.0.1" db0)) (RSuccess product0 "active" None)
              ltac:(vm_compute; reflexivity) ltac:(reflexivity))
    as (key & row & rc & Hk & _ & Hst & _ & _ & _ & _ & _ & _ & Hr & Ha & Hs & Hu & _).
  exists key, row, rc. repeat split; assumption.
Defined.


Lemma validateLicense_logs_once_witness :
  exists ld,
    validation_logs (fst (validateLicense env0 req0 "10.0.0.1" db0)) = [ld] /\
    ld_result ld = "success" /\ ld_error_code ld = None.
Proof.
  destruct (validateLicense_logs_once env0 req0 "10.0.0.1" db0
              (fst (validateLicense env0 req0 "10.0.0.1" db0)) (RSuccess product0 "active" None)
              eq_refl ltac:(vm_compute; reflexivity))
    as (ld & Hl & Hr & He & _).
  exists ld. auto.
Defined.

Lemma validateLicense_failure_frame_witness :
  rate_limit_tracking (fst (validateLicense env0 req0 "10.0.0.1" db_ended)) = [] /\
  nonce_store (fst (validateLicense env0 req0 "10.0.0.1" db_ended)) = [nonce_row0].
Proof.
  destruct (validateLicense_failure_frame env0 req0 "10.0.0.1" db_ended
              (fst (validateLicense env0 req0 "10.0.0.1" db_ended))
              (RFailure "SUBSCRIPTION_EXPIRED" "Subscription has expired")
              ltac:(vm_compute; reflexivity) ltac:(reflexivity))
    as (Hr & _ & Hn).
  split; [exact Hr | apply Hn; discriminate].
Defined.

Lemma validateLicense_expired_then_inactive_witness :
  snd (validateLicense env0 req0 "10.0.0.2" (fst (validateLicense env0 req0 "10.0.0.1" db_ended))) =
  Ret (RFailure "API_KEY_INACTIVE" "API key status: expired").
Proof.
  apply (validateLicense_expired_then_inactive env0 env0 req0 req0 "10.0.0.1" "10.0.0.2" db_ended
           (fst (validateLicense env0 req0 "10.0.0.1" db_ended)) "Subscription has expired");
    vm_compute; reflexivity.
Defined.

Lemma validateLicense_replay_rejected_witness :
  success (RFailure "INVALID_NONCE" "Nonce already used (replay attack)") = false.
Proof.
  apply (validateLicense_replay_rejected env0 env0 req0 "10.0.0.1" "10.0.0.1" db0
           (fst (validateLicense env0 req0 "10.0.0.1" db0))
           (fst (validateLicense env0 req0 "10.0.0.1" (fst (validateLicense env0 req0 "10.0.0.1" db0))))
           (RSuccess product0 "active" None));
    vm_compute; reflexivity.
Defined.

End PipelineWitnesses.
